(** * Using_logprobs.ipynb: token log-probability post-processing

    A shallow embedding of the code cells of
    [examples/Using_logprobs.ipynb] that post-process the per-token
    log-probabilities of a chat completion: the classification report
    (cell 12), the aggregation of bytes and log-probabilities (cells 25 and
    34), the autocomplete loop (cell 30) and [highlight_text] (cell 35);
    and the properties the specification states about them.

    Conventions of the embedding.
    - A Python [float] is read as the real number it denotes ([R] of the
      Standard Library, [exp] for [math.exp] and [np.exp]).  Rounding,
      overflow, underflow and NaN of binary64 are outside this reading;
      where the range of [np.exp] is at stake, its result is rounded to
      binary64 ([linearProbability_binary64]).
    - A Python [str] produced by decoding is a list of Unicode code points
      ([pystr]); token labels and literal text are [string].
    - A list of ints handed to [bytes(...)] is a [list Z]; [bytes] raises
      [ValueError] outside [range(0, 256)].
    - Notebook cells read and write the kernel's global names: a cell is a
      computation over [Globals] that also produces printed output and may
      raise.  The call to the completion service is an argument of the
      cell. *)

From Stdlib Require Import ZArith List Bool String Ascii Reals Lra Lia.
Import ListNotations.

(** ** Python exceptions and results *)

Inductive exn : Type :=
| NameError
| IndexError
| ValueError
| UnicodeDecodeError
| AssertionError.

Inductive result (A : Type) : Type :=
| Ok (a : A)
| Raise (e : exn).

Arguments Ok {A} a.
Arguments Raise {A} e.

(** A decoded Python string: its code points. *)
Definition pystr : Type := list Z.

Definition pystr_eqb (s t : pystr) : bool :=
  if list_eq_dec Z.eq_dec s t then true else false.

(** ** The UTF-8 codec behind [bytes.decode('utf-8')]

    The notebook calls the interpreter's strict UTF-8 decoder.  It is
    modelled by the well-formed byte sequences of the Unicode standard
    (no overlong forms, no surrogates, nothing above U+10FFFF). *)

Module Utf8.
Local Open Scope Z_scope.

Definition in_range (lo hi b : Z) : bool := (lo <=? b) && (b <=? hi).

Definition is_cont (b : Z) : bool := in_range 0x80 0xBF b.

(** Lower and upper bound of the second byte, by lead byte. *)
Definition second_lo (b0 : Z) : Z :=
  if b0 =? 0xE0 then 0xA0 else if b0 =? 0xF0 then 0x90 else 0x80.

Definition second_hi (b0 : Z) : Z :=
  if b0 =? 0xED then 0x9F else if b0 =? 0xF4 then 0x8F else 0xBF.

Fixpoint decode (bs : list Z) : option (list Z) :=
  match bs with
  | [] => Some []
  | b0 :: r0 =>
    if in_range 0 0x7F b0 then
      option_map (cons b0) (decode r0)
    else if in_range 0xC2 0xDF b0 then
      match r0 with
      | b1 :: r1 =>
        if is_cont b1
        then option_map (cons ((b0 - 0xC0) * 64 + (b1 - 0x80))) (decode r1)
        else None
      | _ => None
      end
    else if in_range 0xE0 0xEF b0 then
      match r0 with
      | b1 :: b2 :: r2 =>
        if in_range (second_lo b0) (second_hi b0) b1 && is_cont b2
        then option_map
               (cons ((b0 - 0xE0) * 4096 + (b1 - 0x80) * 64 + (b2 - 0x80)))
               (decode r2)
        else None
      | _ => None
      end
    else if in_range 0xF0 0xF4 b0 then
      match r0 with
      | b1 :: b2 :: b3 :: r3 =>
        if in_range (second_lo b0) (second_hi b0) b1
           && is_cont b2 && is_cont b3
        then option_map
               (cons ((b0 - 0xF0) * 262144 + (b1 - 0x80) * 4096
                      + (b2 - 0x80) * 64 + (b3 - 0x80)))
               (decode r3)
        else None
      | _ => None
      end
    else None
  end.

(** Unicode scalar values: code points that are not surrogates. *)
Definition is_scalar (c : Z) : bool :=
  in_range 0 0xD7FF c || in_range 0xE000 0x10FFFF c.

Definition encode1 (c : Z) : list Z :=
  if c <? 0x80 then [c]
  else if c <? 0x800 then [0xC0 + c / 64; 0x80 + c mod 64]
  else if c <? 0x10000 then
    [0xE0 + c / 4096; 0x80 + (c / 64) mod 64; 0x80 + c mod 64]
  else
    [0xF0 + c / 262144; 0x80 + (c / 4096) mod 64;
     0x80 + (c / 64) mod 64; 0x80 + c mod 64].

Definition encode (cs : list Z) : list Z := flat_map encode1 cs.

(** A byte sequence is valid UTF-8 when it is the encoding of a sequence
    of scalar values. *)
Definition valid (bs : list Z) : Prop :=
  exists cs, Forall (fun c => is_scalar c = true) cs /\ encode cs = bs.

End Utf8.

(** [bytes(ints)]: every element must be in [range(0, 256)]. *)
Definition is_byte (b : Z) : bool := Utf8.in_range 0 255 b.

Definition py_bytes (ints : list Z) : result (list Z) :=
  if forallb is_byte ints then Ok ints else Raise ValueError.

(** [b.decode('utf-8')] *)
Definition py_decode_utf8 (b : list Z) : result pystr :=
  match Utf8.decode b with
  | Some s => Ok s
  | None => Raise UnicodeDecodeError
  end.

(** ** Numbers

    [x > y] on floats, as a boolean. *)

Definition Rgtb (x y : R) : bool := if Rgt_dec x y then true else false.

(** [np.rint]: round to the nearest integer, halves to the even one. *)
Definition rint (x : R) : Z :=
  let n := Int_part x in
  let f := frac_part x in
  if Rlt_dec f (1 / 2) then n
  else if Rlt_dec (1 / 2) f then (n + 1)%Z
  else if Z.even n then n else (n + 1)%Z.

(** [np.round(x, 2)] *)
Definition np_round2 (x : R) : R := (IZR (rint (x * 100)) / 100)%R.

(** The binary64 numbers near [x] are the multiples of two to the power
    [binary64_exponent x]: 53 significant bits, and below the normal range
    the fixed step [2^-1074] of the subnormals. *)
Definition binary64_exponent (x : R) : Z :=
  Z.max (Int_part (ln (Rabs x) / ln 2) - 52) (-1074).

(** The binary64 number nearest to [x], halves to the even one (the
    rounding of IEEE 754 arithmetic).  Overflow to [inf] is left out: the
    notebook rounds numbers that do not exceed 1. *)
Definition round_binary64 (x : R) : R :=
  (IZR (rint (x * powerRZ 2 (- binary64_exponent x)))
   * powerRZ 2 (binary64_exponent x))%R.

(** ** The response of the completion service

    The fields the notebook reads from [API_RESPONSE.choices[0]]:
    [logprobs.content] (with [token], [bytes], [logprob], [top_logprobs]
    per position) and [message.content]. *)

Record TopLogprob : Type := {
  top_token : string;
  top_bytes : list Z;
  top_logprob : R
}.

Record ChatCompletionTokenLogprob : Type := {
  token : string;
  bytes : list Z;
  logprob : R;
  top_logprobs : list TopLogprob
}.

Record ChatCompletion : Type := {
  content : list ChatCompletionTokenLogprob;
  message : pystr
}.

(** ** The expressions of the notebook, as functions *)

Section Operations.
Local Open Scope R_scope.

(** [np.exp(logprob.logprob)] (cells 12, 21, 30). *)
Definition linearProbability (x : R) : R := exp x.

(** The same expression with the rounding of its result: [np.exp] returns
    a binary64 number, read here as the one nearest to the exponential.
    The library is accurate to the last binary place; the properties
    stated of this function are bounds, the value at 0 and the underflow
    to zero, which do not depend on that place. *)
Definition linearProbability_binary64 (x : R) : R := round_binary64 (exp x).

(** [np.round(np.exp(logprob.logprob)*100,2)], the displayed percentage. *)
Definition linear_percent (x : R) : R := np_round2 (linearProbability x * 100).

(** The accumulator [joint_logprob] after the loop of cell 25:
    starts at [0.0], one [+=] per token in sequence order. *)
Definition joint_logprob_loop (tokens : list ChatCompletionTokenLogprob) : R :=
  fold_left (fun acc t => acc + logprob t) tokens 0.

(** [exp(joint_logprob)] *)
Definition jointProbability (tokens : list ChatCompletionTokenLogprob) : R :=
  exp (joint_logprob_loop tokens).

(** The accumulator [aggregated_bytes] after the loop of cell 25:
    starts at [[]], one [+=] per token in sequence order. *)
Definition aggregated_bytes_loop
    (tokens : list ChatCompletionTokenLogprob) : list Z :=
  fold_left (fun acc t => acc ++ bytes t) tokens [].

(** [bytes(aggregated_bytes).decode('utf-8')] *)
Definition decodeText (tokens : list ChatCompletionTokenLogprob)
  : result pystr :=
  match py_bytes (aggregated_bytes_loop tokens) with
  | Ok b => py_decode_utf8 b
  | Raise e => Raise e
  end.

(** [np.exp(alt_token.logprob)>.95] (cell 30), with the constant [.95]
    taken as the argument [threshold]. *)
Definition meetsThreshold (x threshold : R) : bool :=
  Rgtb (linearProbability x) threshold.


End Operations.

(** ** The notebook kernel: globals, printed output, exceptions *)

(** One piece of a printed line. *)
Inductive piece : Type :=
| Text (s : string)
| Str (s : pystr)
| Float (x : R)
| Int (n : Z).

(** [chr(27)], written [\033] in the notebook, and the line feed. *)
Definition esc : string := String (ascii_of_nat 27) EmptyString.
Definition newline : string := String (ascii_of_nat 10) EmptyString.

(** [high_prob_completions]: a dict from sentence to token, in insertion
    order. *)
Definition dict : Type := list (string * string).

Fixpoint dict_set (d : dict) (k v : string) : dict :=
  match d with
  | [] => [(k, v)]
  | (k', v') :: d' =>
    if String.eqb k' k then (k, v) :: d' else (k', v') :: dict_set d' k v
  end.

(** The global names the modelled cells touch; [None] is an unbound name. *)
Record Globals : Type := {
  API_RESPONSE : option ChatCompletion;
  aggregated_bytes : option (list Z);
  joint_logprob : option R;
  message_content : option pystr;
  aggregated_text : option pystr;
  sentence : option string;
  high_prob_completions : option dict
}.

(** A fresh kernel: nothing is bound. *)
Definition fresh : Globals :=
  {| API_RESPONSE := None; aggregated_bytes := None; joint_logprob := None;
     message_content := None; aggregated_text := None; sentence := None;
     high_prob_completions := None |}.

Definition set_API_RESPONSE (v : ChatCompletion) (g : Globals) : Globals :=
  {| API_RESPONSE := Some v; aggregated_bytes := aggregated_bytes g;
     joint_logprob := joint_logprob g; message_content := message_content g;
     aggregated_text := aggregated_text g; sentence := sentence g;
     high_prob_completions := high_prob_completions g |}.

Definition set_aggregated_bytes (v : list Z) (g : Globals) : Globals :=
  {| API_RESPONSE := API_RESPONSE g; aggregated_bytes := Some v;
     joint_logprob := joint_logprob g; message_content := message_content g;
     aggregated_text := aggregated_text g; sentence := sentence g;
     high_prob_completions := high_prob_completions g |}.

Definition set_joint_logprob (v : R) (g : Globals) : Globals :=
  {| API_RESPONSE := API_RESPONSE g; aggregated_bytes := aggregated_bytes g;
     joint_logprob := Some v; message_content := message_content g;
     aggregated_text := aggregated_text g; sentence := sentence g;
     high_prob_completions := high_prob_completions g |}.

Definition set_message_content (v : pystr) (g : Globals) : Globals :=
  {| API_RESPONSE := API_RESPONSE g; aggregated_bytes := aggregated_bytes g;
     joint_logprob := joint_logprob g; message_content := Some v;
     aggregated_text := aggregated_text g; sentence := sentence g;
     high_prob_completions := high_prob_completions g |}.

Definition set_aggregated_text (v : pystr) (g : Globals) : Globals :=
  {| API_RESPONSE := API_RESPONSE g; aggregated_bytes := aggregated_bytes g;
     joint_logprob := joint_logprob g; message_content := message_content g;
     aggregated_text := Some v; sentence := sentence g;
     high_prob_completions := high_prob_completions g |}.

Definition set_sentence (v : string) (g : Globals) : Globals :=
  {| API_RESPONSE := API_RESPONSE g; aggregated_bytes := aggregated_bytes g;
     joint_logprob := joint_logprob g; message_content := message_content g;
     aggregated_text := aggregated_text g; sentence := Some v;
     high_prob_completions := high_prob_completions g |}.

Definition set_high_prob_completions (v : dict) (g : Globals) : Globals :=
  {| API_RESPONSE := API_RESPONSE g; aggregated_bytes := aggregated_bytes g;
     joint_logprob := joint_logprob g; message_content := message_content g;
     aggregated_text := aggregated_text g; sentence := sentence g;
     high_prob_completions := Some v |}.

(** A cell: from the globals to an outcome, the globals it leaves behind
    and what it printed.  Globals written and text printed before an
    exception stay. *)
Definition M (A : Type) : Type := Globals -> result A * Globals * list piece.

Definition ret {A : Type} (a : A) : M A := fun g => (Ok a, g, []).

Definition bind {A B : Type} (m : M A) (f : A -> M B) : M B :=
  fun g =>
    match m g with
    | (Ok a, g1, o1) =>
      match f a g1 with
      | (r, g2, o2) => (r, g2, o1 ++ o2)
      end
    | (Raise e, g1, o1) => (Raise e, g1, o1)
    end.

Declare Scope cell_scope.
Delimit Scope cell_scope with cell.
Notation "x <- m ;; k" := (bind m (fun x => k))
  (at level 61, m at next level, right associativity) : cell_scope.
Notation "m ;; k" := (bind m (fun _ => k))
  (at level 61, right associativity) : cell_scope.
Local Open Scope cell_scope.

Definition raise {A : Type} (e : exn) : M A := fun g => (Raise e, g, []).

Definition lift {A : Type} (r : result A) : M A := fun g => (r, g, []).

(** Reading a global name: [NameError] when it is unbound. *)
Definition read {A : Type} (name : Globals -> option A) : M A :=
  fun g =>
    match name g with
    | Some v => (Ok v, g, [])
    | None => (Raise NameError, g, [])
    end.

(** Binding a global name. *)
Definition write (set : Globals -> Globals) : M unit :=
  fun g => (Ok tt, set g, []).

(** [print(..., end="")] and [print(...)]. *)
Definition print_end_empty (l : list piece) : M unit :=
  fun g => (Ok tt, g, l).

Definition print (l : list piece) : M unit :=
  print_end_empty (l ++ [Text newline]).

(** [assert c] *)
Definition assert (c : bool) : M unit :=
  if c then ret tt else raise AssertionError.

(** [l[0]] *)
Definition index0 {A : Type} (l : list A) : M A :=
  match l with
  | a :: _ => ret a
  | [] => raise IndexError
  end.

(** [for x in l: body]; the list is evaluated once, before the loop. *)
Fixpoint for_each {A : Type} (l : list A) (body : A -> M unit) : M unit :=
  match l with
  | [] => ret tt
  | a :: l' => body a ;; for_each l' body
  end.

Definition outcome {A : Type} (x : result A * Globals * list piece)
  : result A := fst (fst x).
Definition globals_after {A : Type} (x : result A * Globals * list piece)
  : Globals := snd (fst x).
Definition printed {A : Type} (x : result A * Globals * list piece)
  : list piece := snd x.

(** ** The cells *)

(** The line printed per alternative in cells 12 and 30:
    [f"\033[96m{label}\033[0m {t.token}, \033[93mlogprobs:\033[0m
    {t.logprob}, \033[95mlinear probability:\033[0m
    {np.round(np.exp(t.logprob)*100,2)}%"]. *)
Definition alternative_line (label : string) (t : TopLogprob) : list piece :=
  [Text (esc ++ "[96m" ++ label ++ esc ++ "[0m ")%string;
   Text (top_token t);
   Text (", " ++ esc ++ "[93mlogprobs:" ++ esc ++ "[0m ")%string;
   Float (top_logprob t);
   Text (", " ++ esc ++ "[95mlinear probability:" ++ esc ++ "[0m ")%string;
   Float (linear_percent (top_logprob t));
   Text "%"].

(** Cell 12, the classification loop.  [get_completion] stands for the
    call to the service, as a function of the headline. *)
Definition cell12 (get_completion : string -> ChatCompletion)
    (headlines : list string) : M unit :=
  for_each headlines (fun headline =>
    print [Text headline] ;;
    write (set_API_RESPONSE (get_completion headline)) ;;
    r <- read API_RESPONSE ;;
    first <- index0 (content r) ;;
    for_each (top_logprobs first) (fun logprob =>
      print (alternative_line "Token:" logprob)) ;;
    print [Text newline]).

(** Cell 23: [API_RESPONSE = get_completion(...)]. *)
Definition cell23 (reply : ChatCompletion) : M unit :=
  write (set_API_RESPONSE reply).

(** Cell 25: aggregate bytes and log-probabilities, decode, cross-check
    against the message, report. *)
Definition cell25 : M unit :=
  write (set_aggregated_bytes []) ;;
  write (set_joint_logprob 0) ;;
  r <- read API_RESPONSE ;;
  for_each (content r) (fun token =>
    ab <- read aggregated_bytes ;;
    write (set_aggregated_bytes (ab ++ bytes token)) ;;
    jl <- read joint_logprob ;;
    write (set_joint_logprob (jl + logprob token))) ;;
  r <- read API_RESPONSE ;;
  write (set_message_content (message r)) ;;
  ab <- read aggregated_bytes ;;
  b <- lift (py_bytes ab) ;;
  s <- lift (py_decode_utf8 b) ;;
  write (set_aggregated_text s) ;;
  s <- read aggregated_text ;;
  print [Str s] ;;
  mc <- read message_content ;;
  s <- read aggregated_text ;;
  assert (pystr_eqb mc s) ;;
  s <- read aggregated_text ;;
  print [Text "text = "; Str s] ;;
  jl <- read joint_logprob ;;
  print [Text "joint probability = "; Float (exp jl)].

(** The globals after the accumulation loop. *)
Definition accumulated (ab : list Z) (jl : R) (g : Globals) : Globals :=
  set_joint_logprob jl (set_aggregated_bytes ab g).

(** The globals cell 25 has bound when it reaches the decoding. *)
Definition before_decoding (r : ChatCompletion) (g : Globals) : Globals :=
  set_message_content (message r)
    (accumulated (aggregated_bytes_loop (content r))
                 (joint_logprob_loop (content r)) g).

(** What cell 25 prints when the cross-check passes. *)
Definition report (r : ChatCompletion) (s : pystr) : list piece :=
  [Str s; Text newline;
   Text "text = "; Str s; Text newline;
   Text "joint probability = "; Float (jointProbability (content r));
   Text newline].

(** [sentence_list] of cell 29. *)
Definition sentence_list : list string :=
  ["My"; "My least"; "My least favorite"; "My least favorite TV";
   "My least favorite TV show"; "My least favorite TV show is"]%string.

(** [high_prob_completions[sentence] = alt_token.token] *)
Definition store_high_prob_completion (tok : string) : M unit :=
  d <- read high_prob_completions ;;
  k <- read sentence ;;
  write (set_high_prob_completions (dict_set d k tok)).

(** The body of the inner loop of cell 30: print the alternative, and
    record it when [np.exp(alt_token.logprob)>.95]. *)
Definition suggest (alt_token : TopLogprob) : M unit :=
  print (alternative_line "Predicted next token:" alt_token) ;;
  if meetsThreshold (top_logprob alt_token) 0.95%R
  then store_high_prob_completion (top_token alt_token)
  else ret tt.

(** The body of the outer loop of cell 30, for one sentence. *)
Definition complete_sentence (get_completion : string -> ChatCompletion)
    (s : string) : M unit :=
  write (set_sentence s) ;;
  k <- read sentence ;;
  write (set_API_RESPONSE (get_completion k)) ;;
  k <- read sentence ;;
  print [Text "Sentence:"; Text " "; Text k] ;;
  r <- read API_RESPONSE ;;
  first <- index0 (content r) ;;
  for_each (top_logprobs first) suggest ;;
  print [Text newline].

(** Cell 30, the autocomplete loop. *)
Definition cell30 (get_completion : string -> ChatCompletion)
    (sentences : list string) : M unit :=
  for_each sentences (complete_sentence get_completion).

(** Cell 34: as cell 25, with the decoding and the read of the message
    inside the loop body. *)
Definition cell34 : M unit :=
  write (set_aggregated_bytes []) ;;
  write (set_joint_logprob 0) ;;
  r <- read API_RESPONSE ;;
  for_each (content r) (fun token =>
    ab <- read aggregated_bytes ;;
    write (set_aggregated_bytes (ab ++ bytes token)) ;;
    jl <- read joint_logprob ;;
    write (set_joint_logprob (jl + logprob token)) ;;
    r <- read API_RESPONSE ;;
    write (set_message_content (message r)) ;;
    ab <- read aggregated_bytes ;;
    b <- lift (py_bytes ab) ;;
    s <- lift (py_decode_utf8 b) ;;
    write (set_aggregated_text s) ;;
    s <- read aggregated_text ;;
    print [Str s]) ;;
  mc <- read message_content ;;
  s <- read aggregated_text ;;
  assert (pystr_eqb mc s) ;;
  s <- read aggregated_text ;;
  print [Text "text = "; Str s] ;;
  jl <- read joint_logprob ;;
  print [Text "joint probability = "; Float (exp jl)].

(** [colors] and [reset_color] of [highlight_text]. *)
Definition colors : list string :=
  [esc ++ "[95m"; esc ++ "[92m"; esc ++ "[93m"; esc ++ "[91m";
   esc ++ "[94m"]%string.

Definition reset_color : string := (esc ++ "[0m")%string.

(** The loop of [highlight_text]; [color_idx] is a local variable. *)
Fixpoint highlight_loop (tokens : list ChatCompletionTokenLogprob)
    (color_idx : nat) : M unit :=
  match tokens with
  | [] => ret tt
  | t :: ts =>
    b <- lift (py_bytes (bytes t)) ;;
    token_str <- lift (py_decode_utf8 b) ;;
    print_end_empty
      [Text (nth color_idx colors EmptyString); Str token_str;
       Text reset_color] ;;
    highlight_loop ts ((color_idx + 1) mod List.length colors)
  end.

(** [highlight_text(api_response)] of cell 35. *)
Definition highlight_text (api_response : ChatCompletion) : M unit :=
  let tokens := content api_response in
  highlight_loop tokens 0 ;;
  print [] ;;
  print [Text "Total number of tokens: "; Int (Z.of_nat (List.length tokens))].

(** ** The responses recorded in the notebook *)

Section Recorded.
Local Open Scope R_scope.
Local Open Scope string_scope.

Definition ascii_bytes (s : string) : list Z :=
  map (fun a => Z.of_nat (nat_of_ascii a)) (list_ascii_of_string s).

(** An alternative whose token is plain ASCII. *)
Definition alt (t : string) (lp : R) : TopLogprob :=
  {| top_token := t; top_bytes := ascii_bytes t; top_logprob := lp |}.

Definition tok (t : string) (b : list Z) (lp : R)
  : ChatCompletionTokenLogprob :=
  {| token := t; bytes := b; logprob := lp; top_logprobs := [] |}.

(** The output of cell 24: the reply to "Give me three random emojis". *)
Definition emoji_tokens : list ChatCompletionTokenLogprob :=
  [tok "\xf0\x9f" [240; 159]%Z (-0.17577635);
   tok "\x8c" [140]%Z (-0.85772306);
   tok "\x88" [136]%Z (-2.3395207);
   tok "\xf0\x9f" [240; 159]%Z (-0.20028262);
   tok "\x8d" [141]%Z (-0.9647721);
   tok "\x95" [149]%Z (-0.5920826);
   tok "\xf0\x9f" [240; 159]%Z (-0.15628104);
   tok "\x9a" [154]%Z (-0.67634493);
   tok "\x80" [128]%Z (-0.0012997614)].

(** U+1F308 RAINBOW, U+1F355 SLICE OF PIZZA, U+1F680 ROCKET. *)
Definition emoji_text : pystr := [0x1F308; 0x1F355; 0x1F680]%Z.

Definition emoji_response : ChatCompletion :=
  {| content := emoji_tokens; message := emoji_text |}.

(** The alternatives printed by cell 12 for the first headline. *)
Definition technology_alternatives : list TopLogprob :=
  [alt "Technology" (-3.1737043e-06); alt "Techn" (-13.437503)].

(** The alternatives printed by cell 30, by sentence. *)
Definition autocomplete_alternatives (s : string) : list TopLogprob :=
  if String.eqb s "My" then
    [alt "favorite" (-0.18245785); alt "dog" (-2.397172);
     alt "ap" (-3.8732424)]
  else if String.eqb s "My least" then
    [alt "favorite" (-0.013642592); alt "My" (-4.3126197);
     alt " favorite" (-9.684484)]
  else if String.eqb s "My least favorite" then
    [alt "food" (-0.9481721); alt "My" (-1.3447137);
     alt "color" (-1.3887696)]
  else if String.eqb s "My least favorite TV" then
    [alt "show" (-0.0007898556); alt "My" (-7.711523);
     alt "series" (-9.348547)]
  else if String.eqb s "My least favorite TV show" then
    [alt "is" (-0.18206136); alt "of" (-2.123914); alt "My" (-3.213298)]
  else if String.eqb s "My least favorite TV show is" then
    [alt (String (ascii_of_nat 34) "My") (-0.69349754);
     alt (String (ascii_of_nat 34) "The") (-1.2899293);
     alt "My" (-2.4170141)]
  else [].

End Recorded.

(** A reply whose position 0 carries the alternatives cell 30 printed for
    the sentence.  Cell 30 reads nothing else of the reply; the fields the
    notebook does not show are filled from the first alternative. *)
Definition recorded_autocomplete (s : string) : ChatCompletion :=
  {| content :=
       match autocomplete_alternatives s with
       | [] => []
       | a :: rest =>
         [{| token := top_token a; bytes := top_bytes a;
             logprob := top_logprob a; top_logprobs := a :: rest |}]
       end;
     message := [] |}.

(** A reply without tokens. *)
Definition empty_response : ChatCompletion :=
  {| content := []; message := [] |}.

(** The reading of "stateless" for a cell whose input is the response
    bound to [API_RESPONSE]: outcome and output are determined by that
    response, and the globals are left as they were found. *)
Definition stateless (cell : M unit) : Prop :=
  (forall g1 g2 : Globals,
      API_RESPONSE g1 = API_RESPONSE g2 ->
      outcome (cell g1) = outcome (cell g2)
      /\ printed (cell g1) = printed (cell g2))
  /\ (forall g : Globals, globals_after (cell g) = g).

(** A computation that cannot bind [high_prob_completions]: if the name
    is unbound before, it is unbound after, whatever the outcome. *)
Definition keeps_unbound {A : Type} (m : M A) : Prop :=
  forall g : Globals,
    high_prob_completions g = None ->
    high_prob_completions (globals_after (m g)) = None.

(** Does some alternative pass the test of cell 30? *)
Definition some_above_095 (alts : list TopLogprob) : bool :=
  existsb (fun a => meetsThreshold (top_logprob a) 0.95%R) alts.

(** The kernel after cells 23 and 25 have processed the emoji reply. *)
Definition after_emoji : Globals :=
  globals_after ((cell23 emoji_response ;; cell25) fresh).

(** The alternatives at position 0 of the reply for a sentence. *)
Definition first_alternatives (get_completion : string -> ChatCompletion)
    (s : string) : list TopLogprob :=
  match content (get_completion s) with
  | [] => []
  | first :: _ => top_logprobs first
  end.

(** The dict after the inner loop of cell 30 for sentence [k], when the
    name is bound to [d] before. *)
Definition suggestions (d : dict) (k : string) (alts : list TopLogprob)
  : dict :=
  fold_left
    (fun d a =>
       if meetsThreshold (top_logprob a) 0.95%R
       then dict_set d k (top_token a) else d)
    alts d.

(** What the inner loop of cell 12 prints: one line per alternative, in
    the order of the reply. *)
Definition alternative_lines (label : string) (alts : list TopLogprob)
  : list piece :=
  flat_map (fun a => alternative_line label a ++ [Text newline]) alts.

(** ** The rest of the notebook *)

(** *** [get_completion] (cell 3) *)

(** The Python values that can be passed to [get_completion]. *)
#[warnings="-register-all"]
Inductive pyvalue : Type :=
| PyNone
| PyBool (b : bool)
| PyInt (n : Z)
| PyFloat (x : R)
| PyStr (s : string)
| PyList (l : list pyvalue)
| PyDict (d : list (string * pyvalue)).

(** The truth value Python gives a value in [if v:]. *)
Definition truthy (v : pyvalue) : bool :=
  match v with
  | PyNone => false
  | PyBool b => b
  | PyInt n => negb (n =? 0)%Z
  | PyFloat x => if Req_dec_T x 0 then false else true
  | PyStr s => negb (String.eqb s EmptyString)
  | PyList l => match l with [] => false | _ :: _ => true end
  | PyDict d => match d with [] => false | _ :: _ => true end
  end.

(** A dict with string keys, in insertion order: [d[k] = v] and [d.get(k)]. *)
Fixpoint item_set {V : Type} (d : list (string * V)) (k : string) (v : V)
  : list (string * V) :=
  match d with
  | [] => [(k, v)]
  | (k', v') :: d' =>
    if String.eqb k' k then (k, v) :: d' else (k', v') :: item_set d' k v
  end.

Fixpoint item_get {V : Type} (d : list (string * V)) (k : string)
  : option V :=
  match d with
  | [] => None
  | (k', v') :: d' => if String.eqb k' k then Some v' else item_get d' k
  end.

(** The [params] that [get_completion] hands to
    [client.chat.completions.create]. *)
Definition get_completion_params
    (messages model max_tokens temperature stop functions logprobs
     top_logprobs : pyvalue) : list (string * pyvalue) :=
  let params :=
    [("model", model); ("messages", messages);
     ("max_tokens", max_tokens); ("temperature", temperature);
     ("stop", stop); ("logprobs", logprobs);
     ("top_logprobs", top_logprobs)]%string in
  if truthy functions then item_set params "functions" functions
  else params.

(** [get_completion]; [create] stands for the call of
    [client.chat.completions.create] with [params] as keyword arguments. *)
Definition get_completion
    (create : list (string * pyvalue) -> ChatCompletion)
    (messages model max_tokens temperature stop functions logprobs
     top_logprobs : pyvalue) : ChatCompletion :=
  create (get_completion_params messages model max_tokens temperature stop
            functions logprobs top_logprobs).

(** *** Cells 20 and 35 *)

(** Cell 20: the expression
    [API_RESPONSE.choices[0].logprobs.content[0].token], whose value the
    notebook displays. *)
Definition cell20 : M string :=
  r <- read API_RESPONSE ;;
  first <- index0 (content r) ;;
  ret (token first).


(** *** Observations *)

(** [bytes(ints).decode('utf-8')] *)
Definition decode_ints (ints : list Z) : result pystr :=
  match py_bytes ints with
  | Ok b => py_decode_utf8 b
  | Raise e => Raise e
  end.

(** The texts the loop of cell 34 prints, one per token: the decoding of
    the bytes aggregated so far; the first failure ends the loop. *)
Fixpoint decode_prefixes (ab : list Z)
    (tokens : list ChatCompletionTokenLogprob) : result (list pystr) :=
  match tokens with
  | [] => Ok []
  | t :: ts =>
    match decode_ints (ab ++ bytes t) with
    | Raise e => Raise e
    | Ok s =>
      match decode_prefixes (ab ++ bytes t) ts with
      | Ok texts => Ok (s :: texts)
      | Raise e => Raise e
      end
    end
  end.

(** What [highlight_text] prints for tokens that decode to [texts], the
    first of them in colour [start]: each text between its colour and the
    reset code. *)
Definition highlighted (start : nat) (texts : list pystr) : list piece :=
  flat_map
    (fun it =>
       [Text (nth (fst it mod 5) colors EmptyString); Str (snd it);
        Text reset_color])
    (combine (seq start (List.length texts)) texts).

(** What cell 12 prints for one headline whose reply has a position 0. *)
Definition headline_report (get_completion : string -> ChatCompletion)
    (headline : string) : list piece :=
  [Text headline; Text newline]
  ++ alternative_lines "Token:" (first_alternatives get_completion headline)
  ++ [Text newline; Text newline].

(** Is the reply to every one of the inputs one with a position 0? *)
Definition all_have_tokens (get_completion : string -> ChatCompletion)
    (inputs : list string) : bool :=
  forallb
    (fun s => match content (get_completion s) with
              | [] => false
              | _ :: _ => true
              end)
    inputs.

(** The notebook has no function that selects a top alternative; its two
    loops over [top_logprobs] are the inner loops of cells 12 and 30.  Read
    on cell 12, the specification's selection says that what the cell puts
    out for a reply whose position 0 has alternatives is the one alternative
    with the greatest [logprob], the first such in the order supplied. *)
Definition reports_greatest_alternative : Prop :=
  forall (get_completion : string -> ChatCompletion) (headline : string)
         (g : Globals) (first : ChatCompletionTokenLogprob)
         (rest : list ChatCompletionTokenLogprob)
         (a0 : TopLogprob) (alts : list TopLogprob),
    content (get_completion headline) = first :: rest ->
    top_logprobs first = a0 :: alts ->
    exists pre b post,
      a0 :: alts = pre ++ b :: post
      /\ (forall a, In a pre -> (top_logprob a < top_logprob b)%R)
      /\ (forall a, In a post -> (top_logprob a <= top_logprob b)%R)
      /\ printed (cell12 get_completion [headline] g)
         = [Text headline; Text newline]
           ++ alternative_line "Token:" b ++ [Text newline]
           ++ [Text newline; Text newline].

(** Read on cell 30, the only cell that keeps an alternative: with
    [high_prob_completions] bound, the token the cell leaves under the
    sentence is that of the alternative with the greatest [logprob], the
    first such in the order supplied. *)
Definition keeps_greatest_alternative : Prop :=
  forall (get_completion : string -> ChatCompletion) (s : string)
         (g : Globals) (d : dict) (first : ChatCompletionTokenLogprob)
         (rest : list ChatCompletionTokenLogprob)
         (a0 : TopLogprob) (alts : list TopLogprob),
    high_prob_completions g = Some d ->
    content (get_completion s) = first :: rest ->
    top_logprobs first = a0 :: alts ->
    exists pre b post d',
      a0 :: alts = pre ++ b :: post
      /\ (forall a, In a pre -> (top_logprob a < top_logprob b)%R)
      /\ (forall a, In a post -> (top_logprob a <= top_logprob b)%R)
      /\ high_prob_completions
           (globals_after (cell30 get_completion [s] g)) = Some d'
      /\ item_get d' s = Some (top_token b).

(** A reply whose position 0 carries the two alternatives cell 12 printed
    for the first headline.  Cell 12 reads nothing else of the reply; the
    fields the notebook does not show are filled from the first
    alternative. *)
Definition technology_response : ChatCompletion :=
  {| content :=
       [{| token := "Technology"; bytes := ascii_bytes "Technology";
           logprob := (-3.1737043e-06)%R;
           top_logprobs := technology_alternatives |}];
     message := ascii_bytes "Technology" |}.

(** The globals after one request per input, in order: [API_RESPONSE] is
    rebound for each. *)
Definition after_requests (get_completion : string -> ChatCompletion)
    (inputs : list string) (g : Globals) : Globals :=
  fold_left (fun g s => set_API_RESPONSE (get_completion s) g) inputs g.

(** * Properties *)

(** ** The codec *)

Module Utf8Facts.
Import Utf8.
Local Open Scope Z_scope.

Ltac zbool :=
  repeat match goal with
  | |- context [?a <=? ?b] => destruct (Z.leb_spec a b)
  | |- context [?a <? ?b] => destruct (Z.ltb_spec a b)
  | |- context [?a =? ?b] => destruct (Z.eqb_spec a b)
  end.

Lemma in_range_true lo hi b : in_range lo hi b = true <-> lo <= b <= hi.
Proof.
  unfold in_range. rewrite andb_true_iff, !Z.leb_le. tauto.
Qed.

Lemma in_range_false lo hi b : in_range lo hi b = false <-> b < lo \/ hi < b.
Proof.
  unfold in_range. rewrite andb_false_iff, !Z.leb_gt. tauto.
Qed.

Lemma decode_1 b0 r :
  0 <= b0 <= 0x7F -> decode (b0 :: r) = option_map (cons b0) (decode r).
Proof.
  intros H. cbn [decode].
  assert (E1 : in_range 0 0x7F b0 = true) by (apply in_range_true; lia).
  rewrite E1. reflexivity.
Qed.

Lemma decode_2 b0 b1 r :
  0xC2 <= b0 <= 0xDF -> 0x80 <= b1 <= 0xBF ->
  decode (b0 :: b1 :: r)
  = option_map (cons ((b0 - 0xC0) * 64 + (b1 - 0x80))) (decode r).
Proof.
  intros H0 H1. cbn [decode].
  assert (E1 : in_range 0 0x7F b0 = false) by (apply in_range_false; lia).
  assert (E2 : in_range 0xC2 0xDF b0 = true) by (apply in_range_true; lia).
  assert (E3 : is_cont b1 = true) by (apply in_range_true; lia).
  rewrite E1, E2, E3. reflexivity.
Qed.

Lemma decode_3 b0 b1 b2 r :
  0xE0 <= b0 <= 0xEF -> second_lo b0 <= b1 <= second_hi b0 ->
  0x80 <= b2 <= 0xBF ->
  decode (b0 :: b1 :: b2 :: r)
  = option_map (cons ((b0 - 0xE0) * 4096 + (b1 - 0x80) * 64 + (b2 - 0x80)))
      (decode r).
Proof.
  intros H0 H1 H2. cbn [decode].
  assert (E1 : in_range 0 0x7F b0 = false) by (apply in_range_false; lia).
  assert (E2 : in_range 0xC2 0xDF b0 = false) by (apply in_range_false; lia).
  assert (E3 : in_range 0xE0 0xEF b0 = true) by (apply in_range_true; lia).
  assert (E4 : in_range (second_lo b0) (second_hi b0) b1 = true)
    by (apply in_range_true; lia).
  assert (E5 : is_cont b2 = true) by (apply in_range_true; lia).
  rewrite E1, E2, E3, E4, E5. reflexivity.
Qed.

Lemma decode_4 b0 b1 b2 b3 r :
  0xF0 <= b0 <= 0xF4 -> second_lo b0 <= b1 <= second_hi b0 ->
  0x80 <= b2 <= 0xBF -> 0x80 <= b3 <= 0xBF ->
  decode (b0 :: b1 :: b2 :: b3 :: r)
  = option_map
      (cons ((b0 - 0xF0) * 262144 + (b1 - 0x80) * 4096
             + (b2 - 0x80) * 64 + (b3 - 0x80)))
      (decode r).
Proof.
  intros H0 H1 H2 H3. cbn [decode].
  assert (E1 : in_range 0 0x7F b0 = false) by (apply in_range_false; lia).
  assert (E2 : in_range 0xC2 0xDF b0 = false) by (apply in_range_false; lia).
  assert (E3 : in_range 0xE0 0xEF b0 = false) by (apply in_range_false; lia).
  assert (E4 : in_range 0xF0 0xF4 b0 = true) by (apply in_range_true; lia).
  assert (E5 : in_range (second_lo b0) (second_hi b0) b1 = true)
    by (apply in_range_true; lia).
  assert (E6 : is_cont b2 = true) by (apply in_range_true; lia).
  assert (E7 : is_cont b3 = true) by (apply in_range_true; lia).
  rewrite E1, E2, E3, E4, E5, E6, E7. reflexivity.
Qed.

Lemma is_scalar_true c :
  is_scalar c = true <-> 0 <= c <= 0xD7FF \/ 0xE000 <= c <= 0x10FFFF.
Proof.
  unfold is_scalar. rewrite orb_true_iff, !in_range_true. tauto.
Qed.

(** Decoding the encoding of one scalar value gives it back. *)
Lemma decode_encode1 c r :
  is_scalar c = true ->
  decode (encode1 c ++ r) = option_map (cons c) (decode r).
Proof.
  intros Hc. apply is_scalar_true in Hc. unfold encode1.
  destruct (Z.ltb_spec c 0x80).
  { cbn [app]. rewrite decode_1 by lia. reflexivity. }
  destruct (Z.ltb_spec c 0x800).
  { cbn [app]. rewrite decode_2 by (Z.to_euclidean_division_equations; lia).
    f_equal. f_equal. Z.to_euclidean_division_equations; lia. }
  destruct (Z.ltb_spec c 0x10000).
  { cbn [app]. rewrite decode_3.
    - f_equal. f_equal. Z.to_euclidean_division_equations; lia.
    - Z.to_euclidean_division_equations; lia.
    - unfold second_lo, second_hi. zbool;
        Z.to_euclidean_division_equations; lia.
    - Z.to_euclidean_division_equations; lia. }
  cbn [app]. rewrite decode_4.
  - f_equal. f_equal. Z.to_euclidean_division_equations; lia.
  - Z.to_euclidean_division_equations; lia.
  - unfold second_lo, second_hi. zbool;
      Z.to_euclidean_division_equations; lia.
  - Z.to_euclidean_division_equations; lia.
  - Z.to_euclidean_division_equations; lia.
Qed.

Lemma decode_encode cs :
  Forall (fun c => is_scalar c = true) cs -> decode (encode cs) = Some cs.
Proof.
  induction 1 as [|c cs Hc _ IH]; [reflexivity|].
  unfold encode in *. cbn [flat_map]. rewrite decode_encode1 by assumption.
  rewrite IH. reflexivity.
Qed.

Lemma encode1_1 b0 :
  0 <= b0 <= 0x7F -> encode1 b0 = [b0] /\ is_scalar b0 = true.
Proof.
  intros H0. split; [|apply is_scalar_true; lia].
  unfold encode1. destruct (Z.ltb_spec b0 0x80); [reflexivity|lia].
Qed.

Lemma encode1_2 b0 b1 :
  0xC2 <= b0 <= 0xDF -> 0x80 <= b1 <= 0xBF ->
  let c := (b0 - 0xC0) * 64 + (b1 - 0x80) in
  encode1 c = [b0; b1] /\ is_scalar c = true.
Proof.
  intros H0 H1 c. subst c. split; [|apply is_scalar_true; lia].
  unfold encode1.
  destruct (Z.ltb_spec ((b0 - 0xC0) * 64 + (b1 - 0x80)) 0x80); [lia|].
  destruct (Z.ltb_spec ((b0 - 0xC0) * 64 + (b1 - 0x80)) 0x800); [|lia].
  repeat f_equal; Z.to_euclidean_division_equations; lia.
Qed.

Lemma encode1_3 b0 b1 b2 :
  0xE0 <= b0 <= 0xEF -> second_lo b0 <= b1 <= second_hi b0 ->
  0x80 <= b2 <= 0xBF ->
  let c := (b0 - 0xE0) * 4096 + (b1 - 0x80) * 64 + (b2 - 0x80) in
  encode1 c = [b0; b1; b2] /\ is_scalar c = true.
Proof.
  intros H0 H1 H2 c. subst c. unfold second_lo, second_hi in H1.
  destruct (Z.eqb_spec b0 0xE0); destruct (Z.eqb_spec b0 0xED);
    destruct (Z.eqb_spec b0 0xF0); destruct (Z.eqb_spec b0 0xF4); try lia.
  all: split; [|apply is_scalar_true; lia].
  all: unfold encode1.
  all: destruct (Z.ltb_spec
         ((b0 - 0xE0) * 4096 + (b1 - 0x80) * 64 + (b2 - 0x80)) 0x80);
       [lia|].
  all: destruct (Z.ltb_spec
         ((b0 - 0xE0) * 4096 + (b1 - 0x80) * 64 + (b2 - 0x80)) 0x800);
       [lia|].
  all: destruct (Z.ltb_spec
         ((b0 - 0xE0) * 4096 + (b1 - 0x80) * 64 + (b2 - 0x80)) 0x10000);
       [|lia].
  all: repeat f_equal; Z.to_euclidean_division_equations; lia.
Qed.

Lemma encode1_4 b0 b1 b2 b3 :
  0xF0 <= b0 <= 0xF4 -> second_lo b0 <= b1 <= second_hi b0 ->
  0x80 <= b2 <= 0xBF -> 0x80 <= b3 <= 0xBF ->
  let c := (b0 - 0xF0) * 262144 + (b1 - 0x80) * 4096
           + (b2 - 0x80) * 64 + (b3 - 0x80) in
  encode1 c = [b0; b1; b2; b3] /\ is_scalar c = true.
Proof.
  intros H0 H1 H2 H3 c. subst c. unfold second_lo, second_hi in H1.
  destruct (Z.eqb_spec b0 0xE0); destruct (Z.eqb_spec b0 0xED);
    destruct (Z.eqb_spec b0 0xF0); destruct (Z.eqb_spec b0 0xF4); try lia.
  all: split; [|apply is_scalar_true; lia].
  all: unfold encode1.
  all: destruct (Z.ltb_spec
         ((b0 - 0xF0) * 262144 + (b1 - 0x80) * 4096
          + (b2 - 0x80) * 64 + (b3 - 0x80)) 0x80); [lia|].
  all: destruct (Z.ltb_spec
         ((b0 - 0xF0) * 262144 + (b1 - 0x80) * 4096
          + (b2 - 0x80) * 64 + (b3 - 0x80)) 0x800); [lia|].
  all: destruct (Z.ltb_spec
         ((b0 - 0xF0) * 262144 + (b1 - 0x80) * 4096
          + (b2 - 0x80) * 64 + (b3 - 0x80)) 0x10000); [lia|].
  all: repeat f_equal; Z.to_euclidean_division_equations; lia.
Qed.

(** What the decoder accepts is the encoding of what it returns. *)
Lemma decode_sound_upto n :
  forall bs cs,
    (List.length bs <= n)%nat -> decode bs = Some cs ->
    Forall (fun c => is_scalar c = true) cs /\ encode cs = bs.
Proof.
  induction n as [|n IH]; intros bs cs Hlen Hd.
  - destruct bs; [|simpl in Hlen; lia].
    simpl in Hd. injection Hd as <-. split; [constructor|reflexivity].
  - destruct bs as [|b0 r0].
    { simpl in Hd. injection Hd as <-. split; [constructor|reflexivity]. }
    cbn [decode] in Hd. cbn [List.length] in Hlen.
    destruct (in_range 0 0x7F b0) eqn:E1.
    { apply in_range_true in E1.
      destruct (decode r0) as [cs'|] eqn:Er; [|discriminate].
      simpl in Hd. injection Hd as <-.
      destruct (IH r0 cs' ltac:(lia) Er) as [HF HE].
      destruct (encode1_1 b0 E1) as [He Hs].
      split; [constructor; assumption|].
      unfold encode in *. cbn [flat_map]. rewrite He, HE. reflexivity. }
    destruct (in_range 0xC2 0xDF b0) eqn:E2.
    { apply in_range_true in E2.
      destruct r0 as [|b1 r1]; [discriminate|].
      destruct (is_cont b1) eqn:E3; [|discriminate].
      apply in_range_true in E3.
      destruct (decode r1) as [cs'|] eqn:Er; [|discriminate].
      simpl in Hd. injection Hd as <-. cbn [List.length] in Hlen.
      destruct (IH r1 cs' ltac:(lia) Er) as [HF HE].
      destruct (encode1_2 b0 b1 E2 E3) as [He Hs].
      split; [constructor; assumption|].
      unfold encode in *. cbn [flat_map]. rewrite He, HE. reflexivity. }
    destruct (in_range 0xE0 0xEF b0) eqn:E3.
    { apply in_range_true in E3.
      destruct r0 as [|b1 [|b2 r2]]; try discriminate.
      destruct (in_range (second_lo b0) (second_hi b0) b1) eqn:E4;
        [|discriminate].
      destruct (is_cont b2) eqn:E5; [|discriminate].
      apply in_range_true in E4, E5.
      destruct (decode r2) as [cs'|] eqn:Er; [|discriminate].
      simpl in Hd. injection Hd as <-. cbn [List.length] in Hlen.
      destruct (IH r2 cs' ltac:(lia) Er) as [HF HE].
      destruct (encode1_3 b0 b1 b2 E3 E4 E5) as [He Hs].
      split; [constructor; assumption|].
      unfold encode in *. cbn [flat_map]. rewrite He, HE. reflexivity. }
    destruct (in_range 0xF0 0xF4 b0) eqn:E4; [|discriminate].
    apply in_range_true in E4.
    destruct r0 as [|b1 [|b2 [|b3 r3]]]; try discriminate.
    destruct (in_range (second_lo b0) (second_hi b0) b1) eqn:E5;
      [|discriminate].
    destruct (is_cont b2) eqn:E6; [|discriminate].
    destruct (is_cont b3) eqn:E7; [|discriminate].
    apply in_range_true in E5, E6, E7.
    destruct (decode r3) as [cs'|] eqn:Er; [|discriminate].
    simpl in Hd. injection Hd as <-. cbn [List.length] in Hlen.
    destruct (IH r3 cs' ltac:(lia) Er) as [HF HE].
    destruct (encode1_4 b0 b1 b2 b3 E4 E5 E6 E7) as [He Hs].
    split; [constructor; assumption|].
    unfold encode in *. cbn [flat_map]. rewrite He, HE. reflexivity.
Qed.

Lemma decode_sound bs cs :
  decode bs = Some cs ->
  Forall (fun c => is_scalar c = true) cs /\ encode cs = bs.
Proof. apply (decode_sound_upto (List.length bs)). lia. Qed.

(** The decoder accepts exactly the valid byte sequences. *)
Lemma decode_some_iff bs cs :
  decode bs = Some cs <->
  Forall (fun c => is_scalar c = true) cs /\ encode cs = bs.
Proof.
  split; [apply decode_sound|].
  intros [HF <-]. apply decode_encode, HF.
Qed.

Lemma decode_none_iff bs : decode bs = None <-> ~ valid bs.
Proof.
  split.
  - intros Hd (cs & HF & HE). subst bs.
    rewrite (decode_encode cs HF) in Hd. discriminate.
  - intros Hv. destruct (decode bs) as [cs|] eqn:Hd; [|reflexivity].
    exfalso. apply Hv. exists cs. apply decode_sound, Hd.
Qed.

End Utf8Facts.

(** ** Numbers *)

Section NumberFacts.
Local Open Scope R_scope.

Lemma Rgtb_true x y : Rgtb x y = true <-> x > y.
Proof.
  unfold Rgtb. destruct (Rgt_dec x y); split; intros; try assumption;
    try reflexivity; try discriminate; contradiction.
Qed.

Lemma Rgtb_false x y : Rgtb x y = false <-> x <= y.
Proof.
  unfold Rgtb. destruct (Rgt_dec x y); split; intros; try reflexivity;
    try discriminate; lra.
Qed.

Lemma exp_le_1 x : x <= 0 -> exp x <= 1.
Proof.
  intros [Hlt | ->].
  - left. rewrite <- exp_0. apply exp_increasing, Hlt.
  - right. apply exp_0.
Qed.

(** For negative [x], [exp x <= 1 / (1 - x)]. *)
Lemma exp_neg_upper x : x <= 0 -> exp x * (1 - x) <= 1.
Proof.
  intros Hx.
  assert (H1 : 1 + - x <= exp (- x)) by apply exp_ineq1_le.
  assert (H2 : exp x * exp (- x) = 1).
  { rewrite <- exp_plus. replace (x + - x) with 0 by lra. apply exp_0. }
  assert (H3 : 0 < exp x) by apply exp_pos.
  rewrite <- H2. apply Rmult_le_compat_l; lra.
Qed.

(** The integer nearest to [x], when [x] is not half-way. *)
Lemma rint_nearest x z : IZR z - 1 / 2 < x < IZR z + 1 / 2 -> rint x = z.
Proof.
  intros [Hlo Hhi]. unfold rint.
  destruct (base_Int_part x) as [Hn1 Hn2].
  assert (Hf : frac_part x = x - IZR (Int_part x)) by reflexivity.
  set (n := Int_part x) in *.
  assert (Hnz : (z - 1 <= n <= z)%Z).
  { split.
    - assert (H : IZR (z - 1) < IZR (n + 1)).
      { rewrite minus_IZR, plus_IZR. lra. }
      apply lt_IZR in H. lia.
    - assert (H : IZR n < IZR (z + 1)).
      { rewrite plus_IZR. lra. }
      apply lt_IZR in H. lia. }
  assert (Hcase : n = z \/ n = (z - 1)%Z) by lia.
  destruct Hcase as [-> | ->].
  - destruct (Rlt_dec (frac_part x) (1 / 2)) as [_|Hge]; [reflexivity|].
    exfalso. apply Hge. rewrite Hf. lra.
  - rewrite Hf, minus_IZR in *.
    destruct (Rlt_dec (x - (IZR z - 1)) (1 / 2)) as [Hlt|_]; [lra|].
    destruct (Rlt_dec (1 / 2) (x - (IZR z - 1))) as [_|Hge]; [lia|].
    exfalso. apply Hge. lra.
Qed.

(** [np.rint] is within one half of its argument. *)
Lemma rint_close x : IZR (rint x) - 1 / 2 <= x <= IZR (rint x) + 1 / 2.
Proof.
  unfold rint. destruct (base_Int_part x) as [Hn1 Hn2].
  assert (Hf : frac_part x = x - IZR (Int_part x)) by reflexivity.
  destruct (Rlt_dec (frac_part x) (1 / 2)) as [Hlt|Hge].
  - rewrite Hf in Hlt. lra.
  - destruct (Rlt_dec (1 / 2) (frac_part x)) as [Hgt|Hle].
    + rewrite plus_IZR. rewrite Hf in Hgt. lra.
    + rewrite Hf in Hge, Hle. destruct (Z.even (Int_part x)).
      * lra.
      * rewrite plus_IZR. lra.
Qed.

Lemma rint_between x lo hi :
  IZR lo <= x <= IZR hi -> (lo <= rint x <= hi)%Z.
Proof.
  intros [Hlo Hhi]. pose proof (rint_close x) as [H1 H2]. split.
  - assert (H : IZR (lo - 1) < IZR (rint x)).
    { rewrite minus_IZR. lra. }
    apply lt_IZR in H. lia.
  - assert (H : IZR (rint x) < IZR (hi + 1)).
    { rewrite plus_IZR. lra. }
    apply lt_IZR in H. lia.
Qed.

Lemma exp_monotone x y : x <= y -> exp x <= exp y.
Proof.
  intros [H| ->]; [left; apply exp_increasing, H|right; reflexivity].
Qed.

Lemma exp_double y : exp (2 * y) = exp y * exp y.
Proof. rewrite <- exp_plus. f_equal. lra. Qed.

Lemma exp_square_lower y z l l2 :
  z = 2 * y -> 0 <= l -> l <= exp y -> l2 <= l * l -> l2 <= exp z.
Proof.
  intros -> H0 H1 H2. rewrite exp_double. nra.
Qed.

Lemma exp_square_upper y z u u2 :
  z = 2 * y -> exp y <= u -> u * u <= u2 -> exp z <= u2.
Proof.
  intros -> H1 H2. rewrite exp_double. pose proof (exp_pos y). nra.
Qed.

End NumberFacts.

(** ** Linear probability and the threshold test *)

Section ThresholdFacts.
Local Open Scope R_scope.

Lemma meetsThreshold_true x t :
  meetsThreshold x t = true <-> exp x > t.
Proof. unfold meetsThreshold, linearProbability. apply Rgtb_true. Qed.

Lemma meetsThreshold_false x t :
  meetsThreshold x t = false <-> exp x <= t.
Proof. unfold meetsThreshold, linearProbability. apply Rgtb_false. Qed.

(** Against the notebook's constant: a logprob above [-0.05] passes,
    one at or below [-0.1] does not. *)
Lemma meets_095_high x : -0.05 < x -> meetsThreshold x 0.95 = true.
Proof.
  intros Hx. apply meetsThreshold_true.
  pose proof (exp_ineq1_le x). lra.
Qed.

Lemma meets_095_low x : x <= -0.1 -> meetsThreshold x 0.95 = false.
Proof.
  intros Hx. apply meetsThreshold_false.
  pose proof (exp_neg_upper x ltac:(lra)) as H.
  pose proof (exp_pos x). nra.
Qed.

(** C4, as amended: [meetsThreshold x t] is true exactly when
    [linearProbability x] is strictly greater than [t]; the comparison in
    the notebook is [>], for every threshold. *)
Theorem meetsThreshold_strict (x t : R) :
  meetsThreshold x t = true <-> linearProbability x > t.
Proof. unfold meetsThreshold. apply Rgtb_true. Qed.

(** C4, as stated, fails at logprob 0 and threshold 1: the linear
    probability is 1, which is [>= 1], and the test answers false. *)
Lemma meetsThreshold_not_inclusive :
  ~ (forall x t : R, 0 < t <= 1 ->
       (meetsThreshold x t = true <-> linearProbability x >= t)).
Proof.
  intros H. specialize (H 0 1 ltac:(lra)).
  assert (Hge : linearProbability 0 >= 1).
  { unfold linearProbability. rewrite exp_0. lra. }
  apply H in Hge. apply meetsThreshold_true in Hge.
  rewrite exp_0 in Hge. lra.
Qed.

Lemma meetsThreshold_strict_witness : meetsThreshold 0 (1 / 2) = true.
Proof.
  apply (proj2 (meetsThreshold_strict 0 (1 / 2))).
  unfold linearProbability. rewrite exp_0. lra.
Defined.

(** The same at the notebook's own threshold: a linear probability of
    exactly [0.95] is not suggested. *)
Lemma meetsThreshold_at_095 :
  linearProbability (ln 0.95) >= 0.95
  /\ meetsThreshold (ln 0.95) 0.95 = false.
Proof.
  assert (E : exp (ln 0.95) = 0.95) by (apply exp_ln; lra).
  split.
  - unfold linearProbability. rewrite E. lra.
  - apply meetsThreshold_false. rewrite E. lra.
Qed.

(** C7: for a fixed threshold [t], if [linearProbability logprob1] is at
    least [linearProbability logprob2] and [logprob2] meets the threshold,
    then [logprob1] meets it. *)
Theorem meetsThreshold_monotone (t logprob1 logprob2 : R)
    (Hge : linearProbability logprob1 >= linearProbability logprob2)
    (H2 : meetsThreshold logprob2 t = true) :
  meetsThreshold logprob1 t = true.
Proof.
  unfold meetsThreshold in *. apply Rgtb_true in H2. apply Rgtb_true. lra.
Qed.

Lemma meetsThreshold_monotone_witness :
  meetsThreshold 0 (1 / 2) = true.
Proof.
  assert (Hge : linearProbability 0 >= linearProbability (-0.01)).
  { unfold linearProbability. rewrite exp_0.
    pose proof (exp_le_1 (-0.01) ltac:(lra)). lra. }
  assert (H2 : meetsThreshold (-0.01) (1 / 2) = true).
  { apply meetsThreshold_true. pose proof (exp_ineq1_le (-0.01)). lra. }
  exact (meetsThreshold_monotone (1 / 2) 0 (-0.01) Hge H2).
Defined.

End ThresholdFacts.

(** ** The linear probability as a binary64 number *)

Section Binary64.
Local Open Scope R_scope.

(** [0.652 < ln 2 < 0.744], from [1 + y <= exp y] and three squarings. *)
Lemma ln_2_bounds : 0.652 < ln 2 < 0.744.
Proof.
  assert (E2 : exp (ln 2) = 2) by (apply exp_ln; lra).
  split.
  - apply exp_lt_inv. rewrite E2.
    assert (U0 : exp (0.652 / 8) <= 1.08874).
    { pose proof (exp_ineq1_le (- (0.652 / 8))) as H.
      assert (H2 : exp (0.652 / 8) * exp (- (0.652 / 8)) = 1).
      { rewrite <- exp_plus.
        replace (0.652 / 8 + - (0.652 / 8)) with 0 by lra. apply exp_0. }
      pose proof (exp_pos (0.652 / 8)). nra. }
    assert (U1 : exp (0.652 / 4) <= 1.18536)
      by (apply (exp_square_upper (0.652 / 8) _ 1.08874);
          [lra | exact U0 | lra]).
    assert (U2 : exp (0.652 / 2) <= 1.40508)
      by (apply (exp_square_upper (0.652 / 4) _ 1.18536);
          [lra | exact U1 | lra]).
    assert (U3 : exp 0.652 <= 1.97426)
      by (apply (exp_square_upper (0.652 / 2) _ 1.40508);
          [lra | exact U2 | lra]).
    lra.
  - apply exp_lt_inv. rewrite E2.
    assert (L0 : 1.093 <= exp (0.744 / 8)).
    { pose proof (exp_ineq1_le (0.744 / 8)). lra. }
    assert (L1 : 1.1946 <= exp (0.744 / 4))
      by (apply (exp_square_lower (0.744 / 8) _ 1.093);
          [lra | lra | exact L0 | lra]).
    assert (L2 : 1.4270 <= exp (0.744 / 2))
      by (apply (exp_square_lower (0.744 / 4) _ 1.1946);
          [lra | lra | exact L1 | lra]).
    assert (L3 : 2.0363 <= exp 0.744)
      by (apply (exp_square_lower (0.744 / 2) _ 1.4270);
          [lra | lra | exact L2 | lra]).
    lra.
Qed.

(** Powers of two. *)
Lemma pow2_exp z : powerRZ 2 z = exp (IZR z * ln 2).
Proof. rewrite powerRZ_Rpower by lra. reflexivity. Qed.

Lemma pow2_pos z : 0 < powerRZ 2 z.
Proof. apply powerRZ_lt. lra. Qed.

Lemma pow2_inverse z : powerRZ 2 (- z) * powerRZ 2 z = 1.
Proof.
  rewrite <- powerRZ_add by lra.
  replace (- z + z)%Z with 0%Z by lia. reflexivity.
Qed.

Lemma pow2_IZR z : (0 <= z)%Z -> powerRZ 2 z = IZR (2 ^ z).
Proof.
  intros Hz. destruct z as [|p|p]; [reflexivity| |lia].
  symmetry. apply (Zpower_pos_powerRZ 2 p).
Qed.

Lemma pow2_monotone a b : (a <= b)%Z -> powerRZ 2 a <= powerRZ 2 b.
Proof.
  intros H. rewrite !pow2_exp. apply exp_monotone.
  apply IZR_le in H. pose proof ln_2_bounds. nra.
Qed.

(** The grid exponent of [exp x]. *)
Lemma binary64_exponent_exp x :
  binary64_exponent (exp x) = Z.max (Int_part (x / ln 2) - 52) (-1074).
Proof.
  unfold binary64_exponent.
  rewrite Rabs_pos_eq by (left; apply exp_pos). rewrite ln_exp. reflexivity.
Qed.

Lemma binary64_exponent_exp_range x :
  x <= 0 -> (-1074 <= binary64_exponent (exp x) <= -52)%Z.
Proof.
  intros Hx. rewrite binary64_exponent_exp.
  destruct (base_Int_part (x / ln 2)) as [Hq _].
  assert (Hq0 : x / ln 2 <= 0).
  { pose proof ln_2_bounds as [Hl _].
    assert (Hi : 0 < / ln 2) by (apply Rinv_0_lt_compat; lra).
    unfold Rdiv. nra. }
  assert (H : (Int_part (x / ln 2) <= 0)%Z) by (apply le_IZR; lra).
  lia.
Qed.

(** Rounding moves [exp x] by at most half a grid step. *)
Lemma round_binary64_exp x :
  let e := binary64_exponent (exp x) in
  let v := exp x * powerRZ 2 (- e) in
  round_binary64 (exp x) = IZR (rint v) * powerRZ 2 e
  /\ exp x = v * powerRZ 2 e.
Proof.
  intros e v. split; [reflexivity|]. unfold v.
  rewrite Rmult_assoc, pow2_inverse. lra.
Qed.

Lemma linearProbability_binary64_bounds x :
  x <= 0 ->
  0 <= linearProbability_binary64 x <= 1
  /\ Rabs (linearProbability_binary64 x - exp x) <= / 9007199254740992.
Proof.
  intros Hx. unfold linearProbability_binary64.
  destruct (round_binary64_exp x) as [Hr Hv]. cbv zeta in Hr, Hv.
  pose proof (binary64_exponent_exp_range x Hx) as He.
  set (e := binary64_exponent (exp x)) in *.
  set (v := exp x * powerRZ 2 (- e)) in *.
  pose proof (pow2_pos e) as Hpe. pose proof (pow2_pos (- e)) as Hpn.
  pose proof (pow2_inverse e) as Hinv.
  pose proof (exp_pos x) as Hpos. pose proof (exp_le_1 x Hx) as Hle.
  assert (Hn : powerRZ 2 (- e) = IZR (2 ^ (- e))) by (apply pow2_IZR; lia).
  assert (Hvr : IZR 0 <= v <= IZR (2 ^ (- e))).
  { rewrite <- Hn. unfold v. split; nra. }
  pose proof (rint_between v _ _ Hvr) as [Hn0 Hn1].
  apply IZR_le in Hn0, Hn1. rewrite <- Hn in Hn1.
  pose proof (rint_close v) as [Hc1 Hc2].
  rewrite Hr. split.
  - split; [nra|]. rewrite <- Hinv. apply Rmult_le_compat_r; lra.
  - assert (Hstep : powerRZ 2 e <= powerRZ 2 (-52))
      by (apply pow2_monotone; lia).
    assert (H52 : powerRZ 2 (-52) * 4503599627370496 = 1).
    { replace 4503599627370496 with (powerRZ 2 52).
      - apply (pow2_inverse 52).
      - rewrite pow2_IZR by lia. reflexivity. }
    assert (Hhalf : / 9007199254740992 = powerRZ 2 (-52) / 2).
    { pose proof (pow2_pos (-52)). field_simplify_eq. nra. }
    rewrite Hhalf. rewrite Hv at 1.
    replace (IZR (rint v) * powerRZ 2 e - v * powerRZ 2 e)
      with ((IZR (rint v) - v) * powerRZ 2 e) by ring.
    apply Rabs_le. split; nra.
Qed.

Lemma linearProbability_binary64_at_0 : linearProbability_binary64 0 = 1.
Proof.
  unfold linearProbability_binary64. rewrite exp_0.
  assert (He : binary64_exponent 1 = (-52)%Z).
  { unfold binary64_exponent. rewrite Rabs_R1, ln_1.
    replace (0 / ln 2) with 0 by (unfold Rdiv; ring).
    rewrite <- (Int_part_spec 0 0) by lra. reflexivity. }
  unfold round_binary64. rewrite He.
  change (- -52)%Z with 52%Z.
  rewrite (pow2_IZR 52) by lia.
  rewrite (rint_nearest _ (2 ^ 52)) by lra.
  rewrite <- (pow2_IZR 52) by lia. rewrite Rmult_comm. apply (pow2_inverse 52).
Qed.

Lemma linearProbability_binary64_underflow x :
  x <= -800 -> linearProbability_binary64 x = 0.
Proof.
  intros Hx. unfold linearProbability_binary64, round_binary64.
  pose proof ln_2_bounds as [Hl Hu].
  assert (He : binary64_exponent (exp x) = (-1074)%Z).
  { rewrite binary64_exponent_exp.
    destruct (base_Int_part (x / ln 2)) as [Hq _].
    assert (Hq0 : x / ln 2 < -1022).
    { assert (Hi : 0 < / ln 2) by (apply Rinv_0_lt_compat; lra).
      assert (Hx' : x = x / ln 2 * ln 2) by (field; lra).
      set (q := x / ln 2) in *. nra. }
    assert (H : (Int_part (x / ln 2) < -1022)%Z) by (apply lt_IZR; lra).
    lia. }
  rewrite He. change (- -1074)%Z with 1074%Z.
  rewrite (rint_nearest _ 0); [lra|].
  rewrite pow2_exp, <- exp_plus.
  pose proof (exp_pos (x + IZR 1074 * ln 2)).
  assert (Hhalf : exp (x + IZR 1074 * ln 2) < 1 / 2).
  { replace (1 / 2) with (exp (- ln 2)).
    - apply exp_increasing. lra.
    - rewrite exp_Ropp, exp_ln by lra. lra. }
  lra.
Qed.

Lemma linearProbability_binary64_positive x :
  -700 <= x -> 0 < linearProbability_binary64 x.
Proof.
  intros Hx. unfold linearProbability_binary64.
  destruct (round_binary64_exp x) as [Hr _]. cbv zeta in Hr. rewrite Hr.
  pose proof ln_2_bounds as [Hl Hu].
  set (e := binary64_exponent (exp x)) in *.
  assert (Hge : powerRZ 2 e <= exp x).
  { rewrite pow2_exp. apply exp_monotone. unfold e.
    rewrite binary64_exponent_exp.
    destruct (base_Int_part (x / ln 2)) as [Hq _].
    assert (Hx' : x = x / ln 2 * ln 2) by (field; lra).
    set (q := x / ln 2) in *.
    apply Z.max_case_strong; intros _.
    - rewrite minus_IZR. nra.
    - lra. }
  pose proof (pow2_pos e) as Hpe. pose proof (pow2_pos (- e)) as Hpn.
  pose proof (pow2_inverse e) as Hinv.
  assert (Hv : 1 <= exp x * powerRZ 2 (- e)).
  { rewrite <- Hinv. rewrite (Rmult_comm (powerRZ 2 (- e))).
    apply Rmult_le_compat_r; lra. }
  pose proof (rint_close (exp x * powerRZ 2 (- e))) as [_ Hc].
  apply Rmult_lt_0_compat; lra.
Qed.

(** C6, as amended: for every logprob [x <= 0] the binary64 result of
    [np.exp(x)] lies in the closed interval [0, 1] and is within [2^-53] of
    [exp x]; it is exactly 1 at [x = 0] and positive down to [x = -700],
    and it is exactly 0 from [x = -800] downwards, where the exponential
    underflows. *)
Theorem linearProbability_binary64_range (x : R) (Hx : x <= 0) :
  0 <= linearProbability_binary64 x <= 1
  /\ Rabs (linearProbability_binary64 x - linearProbability x)
     <= / 9007199254740992
  /\ linearProbability_binary64 0 = 1
  /\ (-700 <= x -> 0 < linearProbability_binary64 x)
  /\ (x <= -800 -> linearProbability_binary64 x = 0).
Proof.
  destruct (linearProbability_binary64_bounds x Hx) as [Hr He].
  split; [exact Hr|]. split; [exact He|]. split; [|split].
  - apply linearProbability_binary64_at_0.
  - apply linearProbability_binary64_positive.
  - apply linearProbability_binary64_underflow.
Qed.

Lemma linearProbability_binary64_range_witness :
  0 < linearProbability_binary64 (-1) <= 1
  /\ linearProbability_binary64 0 = 1.
Proof.
  assert (H : -1 <= 0) by lra.
  destruct (linearProbability_binary64_range (-1) H)
    as [[_ Hle] [_ [H0 [Hpos _]]]].
  split; [split; [apply Hpos; lra | exact Hle] | exact H0].
Defined.

(** C6, as stated, fails at the logprob -1000: [np.exp(-1000.0)] is 0.0,
    which is not in the half-open interval (0, 1]. *)
Lemma linearProbability_binary64_not_positive :
  linearProbability_binary64 (-1000) = 0
  /\ ~ (forall x : R, x <= 0 ->
          0 < linearProbability_binary64 x <= 1
          /\ linearProbability_binary64 0 = 1).
Proof.
  assert (H0 : linearProbability_binary64 (-1000) = 0)
    by (apply linearProbability_binary64_underflow; lra).
  split; [exact H0|]. intros H.
  destruct (H (-1000) ltac:(lra)) as [[Hpos _] _]. lra.
Qed.

End Binary64.

(** ** Joint probability *)

Section JointFacts.
Local Open Scope R_scope.



End JointFacts.

(** ** Running cells *)

Section CellFacts.
Local Open Scope R_scope.
Local Open Scope cell_scope.

(** A step that succeeds without printing hands over to its continuation. *)
Lemma bind_silent {A B : Type} (m : M A) (f : A -> M B) g a g1 :
  m g = (Ok a, g1, []) -> bind m f g = f a g1.
Proof.
  intros E. unfold bind. rewrite E.
  destruct (f a g1) as [[r g2] o2]. reflexivity.
Qed.

Lemma bind_raise {A B : Type} (m : M A) (f : A -> M B) g e g1 o1 :
  m g = (Raise e, g1, o1) -> bind m f g = (Raise e, g1, o1).
Proof. intros E. unfold bind. rewrite E. reflexivity. Qed.

(** A step that succeeds puts its output in front of what follows. *)
Lemma bind_output {A B : Type} (m : M A) (f : A -> M B) g a g1 o1 r g2 o2 :
  m g = (Ok a, g1, o1) -> f a g1 = (r, g2, o2) ->
  bind m f g = (r, g2, o1 ++ o2).
Proof. intros E1 E2. unfold bind. rewrite E1, E2. reflexivity. Qed.

Lemma read_bound {A : Type} (name : Globals -> option A) g v :
  name g = Some v -> read name g = (Ok v, g, []).
Proof. intros E. unfold read. rewrite E. reflexivity. Qed.

Lemma read_unbound {A : Type} (name : Globals -> option A) g :
  name g = None -> read name g = (Raise NameError, g, []).
Proof. intros E. unfold read. rewrite E. reflexivity. Qed.

Lemma aggregated_bytes_shift tokens acc :
  fold_left (fun a t => a ++ bytes t) tokens acc
  = acc ++ List.concat (map bytes tokens).
Proof.
  revert acc. induction tokens as [|t ts IH]; intros acc; simpl.
  - rewrite app_nil_r. reflexivity.
  - rewrite IH, app_assoc. reflexivity.
Qed.

Lemma aggregated_bytes_loop_concat tokens :
  aggregated_bytes_loop tokens = List.concat (map bytes tokens).
Proof. unfold aggregated_bytes_loop. apply aggregated_bytes_shift. Qed.

(** The accumulation loop of cell 25 never raises, prints nothing, and
    leaves the two folds in the accumulators. *)
Lemma accumulate_loop tokens :
  forall g ab jl,
    aggregated_bytes g = Some ab -> joint_logprob g = Some jl ->
    for_each tokens (fun token =>
      ab <- read aggregated_bytes ;;
      write (set_aggregated_bytes (ab ++ bytes token)) ;;
      jl <- read joint_logprob ;;
      write (set_joint_logprob (jl + logprob token))) g
    = (Ok tt,
       accumulated (fold_left (fun a t => a ++ bytes t) tokens ab)
                   (fold_left (fun a t => a + logprob t) tokens jl) g,
       []).
Proof.
  induction tokens as [|t ts IH]; intros g ab jl Hab Hjl.
  - destruct g. simpl in Hab, Hjl. subst. reflexivity.
  - cbn [for_each fold_left].
    erewrite bind_silent; cycle 1.
    { erewrite bind_silent by (apply read_bound, Hab).
      erewrite bind_silent by reflexivity.
      erewrite bind_silent by (apply read_bound, Hjl).
      reflexivity. }
    rewrite (IH _ (ab ++ bytes t) (jl + logprob t)) by reflexivity.
    reflexivity.
Qed.

(** Cell 25, run on the response bound to [API_RESPONSE]. *)
Lemma cell25_run g r :
  API_RESPONSE g = Some r ->
  cell25 g =
  match decodeText (content r) with
  | Raise e => (Raise e, before_decoding r g, [])
  | Ok s =>
    if pystr_eqb (message r) s
    then (Ok tt, set_aggregated_text s (before_decoding r g), report r s)
    else (Raise AssertionError,
          set_aggregated_text s (before_decoding r g),
          [Str s; Text newline])
  end.
Proof.
  intros Hr. unfold cell25.
  erewrite bind_silent by reflexivity.
  erewrite bind_silent by reflexivity.
  erewrite bind_silent by (apply read_bound, Hr).
  erewrite bind_silent by (apply accumulate_loop; reflexivity).
  erewrite bind_silent by (apply read_bound, Hr).
  erewrite bind_silent by reflexivity.
  erewrite bind_silent by reflexivity.
  unfold decodeText, aggregated_bytes_loop, joint_logprob_loop.
  destruct (py_bytes (fold_left (fun a t => a ++ bytes t) (content r) []))
    as [b|e] eqn:Eb.
  2:{ erewrite bind_raise by (unfold lift; reflexivity). reflexivity. }
  erewrite bind_silent by (unfold lift; reflexivity).
  destruct (py_decode_utf8 b) as [s|e] eqn:Es.
  2:{ erewrite bind_raise by (unfold lift; reflexivity). reflexivity. }
  erewrite bind_silent by (unfold lift; reflexivity).
  erewrite bind_silent by reflexivity.
  erewrite bind_silent by reflexivity.
  destruct (pystr_eqb (message r) s) eqn:Eq.
  - etransitivity.
    { eapply bind_output; [reflexivity|].
      erewrite bind_silent by reflexivity.
      erewrite bind_silent by reflexivity.
      cbn [message_content set_aggregated_text set_message_content].
      rewrite Eq.
      erewrite bind_silent by reflexivity.
      erewrite bind_silent by reflexivity.
      eapply bind_output; [reflexivity|].
      erewrite bind_silent by reflexivity.
      reflexivity. }
    reflexivity.
  - etransitivity.
    { eapply bind_output; [reflexivity|].
      erewrite bind_silent by reflexivity.
      erewrite bind_silent by reflexivity.
      cbn [message_content set_aggregated_text set_message_content].
      rewrite Eq.
      eapply bind_raise. reflexivity. }
    reflexivity.
Qed.

(** Cell 23 followed by cell 25: the response is processed. *)
Lemma process25_run g r :
  (cell23 r ;; cell25) g = cell25 (set_API_RESPONSE r g).
Proof.
  exact (bind_silent (cell23 r) (fun _ => cell25) g tt
           (set_API_RESPONSE r g) eq_refl).
Qed.

Lemma pystr_eqb_true s t : pystr_eqb s t = true <-> s = t.
Proof.
  unfold pystr_eqb. destruct (list_eq_dec Z.eq_dec s t); split; intros;
    try assumption; try reflexivity; try discriminate; contradiction.
Qed.

Lemma pystr_eqb_false s t : pystr_eqb s t = false <-> s <> t.
Proof.
  unfold pystr_eqb. destruct (list_eq_dec Z.eq_dec s t); split; intros;
    try assumption; try reflexivity; try discriminate; contradiction.
Qed.

Lemma forallb_concat_bytes tokens :
  Forall (fun t => forallb is_byte (bytes t) = true) tokens ->
  forallb is_byte (List.concat (map bytes tokens)) = true.
Proof.
  induction 1 as [|t ts Ht _ IH]; [reflexivity|].
  cbn [map List.concat]. rewrite forallb_app, Ht, IH. reflexivity.
Qed.

(** With byte-valued fragments, [decodeText] is the decoder applied to the
    concatenation. *)
Lemma decodeText_concat tokens :
  Forall (fun t => forallb is_byte (bytes t) = true) tokens ->
  decodeText tokens = py_decode_utf8 (List.concat (map bytes tokens)).
Proof.
  intros H. unfold decodeText, py_bytes.
  rewrite aggregated_bytes_loop_concat, (forallb_concat_bytes tokens H).
  reflexivity.
Qed.

Lemma py_decode_utf8_ok b s :
  py_decode_utf8 b = Ok s <->
  Forall (fun c => Utf8.is_scalar c = true) s /\ Utf8.encode s = b.
Proof.
  rewrite <- Utf8Facts.decode_some_iff. unfold py_decode_utf8.
  destruct (Utf8.decode b); split; intros H; inversion H; reflexivity.
Qed.

Lemma py_decode_utf8_raise b e :
  py_decode_utf8 b = Raise e <-> e = UnicodeDecodeError /\ ~ Utf8.valid b.
Proof.
  rewrite <- Utf8Facts.decode_none_iff. unfold py_decode_utf8.
  destruct (Utf8.decode b); split.
  - discriminate.
  - intros [_ H]. discriminate.
  - intros H. inversion H. split; reflexivity.
  - intros [-> _]. reflexivity.
Qed.

Lemma emoji_tokens_bytes :
  Forall (fun t => forallb is_byte (bytes t) = true) emoji_tokens.
Proof. repeat constructor. Qed.

Lemma decodeText_emoji : decodeText emoji_tokens = Ok emoji_text.
Proof. rewrite (decodeText_concat _ emoji_tokens_bytes). reflexivity. Qed.

End CellFacts.

(** ** Aggregation: cell 25 *)

Section Aggregation.
Local Open Scope R_scope.
Local Open Scope cell_scope.

(** The nine log-probabilities of the recorded reply add up, in sequence
    order, to -5.9640831614. *)
Lemma emoji_joint_logprob : joint_logprob_loop emoji_tokens = -5.9640831614.
Proof.
  unfold joint_logprob_loop, emoji_tokens, tok. cbn [fold_left logprob].
  lra.
Qed.

(** The joint probability of the recorded emoji reply is 0.00257 to five
    decimal places (the notebook prints 0.0025693992522193153).  The
    bounds come from [1 + y <= exp y] at [y = -5.9640831614 / 65536] and
    sixteen squarings, rounded outwards. *)
Lemma emoji_jointProbability_bounds :
  0.002565 < jointProbability emoji_tokens < 0.002575.
Proof.
  unfold jointProbability. rewrite emoji_joint_logprob.
  assert (L0 : 0.999908995313088 <= exp (-5.9640831614 / 65536)).
  { pose proof (exp_ineq1_le (-5.9640831614 / 65536)). lra. }
  assert (U0 : exp (-5.9640831614 / 65536) <= 0.999909003594189).
  { pose proof (exp_neg_upper (-5.9640831614 / 65536) ltac:(lra)).
    pose proof (exp_pos (-5.9640831614 / 65536)). nra. }
  assert (L1 : 0.999817998908029 <= exp (-5.9640831614 / 32768))
    by (apply (exp_square_lower (-5.9640831614 / 65536) _ 0.999908995313088);
        [lra | lra | exact L0 | lra]).
  assert (U1 : exp (-5.9640831614 / 32768) <= 0.999818015468724)
    by (apply (exp_square_upper (-5.9640831614 / 65536) _ 0.999909003594189);
        [lra | exact U0 | lra]).
  assert (L2 : 0.999636030940455 <= exp (-5.9640831614 / 16384))
    by (apply (exp_square_lower (-5.9640831614 / 32768) _ 0.999817998908029);
        [lra | lra | exact L1 | lra]).
  assert (U2 : exp (-5.9640831614 / 16384) <= 0.999636064055818)
    by (apply (exp_square_upper (-5.9640831614 / 32768) _ 0.999818015468724);
        [lra | exact U1 | lra]).
  assert (L3 : 0.999272194354386 <= exp (-5.9640831614 / 8192))
    by (apply (exp_square_lower (-5.9640831614 / 16384) _ 0.999636030940455);
        [lra | lra | exact L2 | lra]).
  assert (U3 : exp (-5.9640831614 / 8192) <= 0.999272260561008)
    by (apply (exp_square_upper (-5.9640831614 / 16384) _ 0.999636064055818);
        [lra | exact U2 | lra]).
  assert (L4 : 0.998544918409829 <= exp (-5.9640831614 / 4096))
    by (apply (exp_square_lower (-5.9640831614 / 8192) _ 0.999272194354386);
        [lra | lra | exact L3 | lra]).
  assert (U4 : exp (-5.9640831614 / 4096) <= 0.998545050726708)
    by (apply (exp_square_upper (-5.9640831614 / 8192) _ 0.999272260561008);
        [lra | exact U3 | lra]).
  assert (L5 : 0.997091954082092 <= exp (-5.9640831614 / 2048))
    by (apply (exp_square_lower (-5.9640831614 / 4096) _ 0.998544918409829);
        [lra | lra | exact L4 | lra]).
  assert (U5 : exp (-5.9640831614 / 2048) <= 0.997092218330804)
    by (apply (exp_square_upper (-5.9640831614 / 4096) _ 0.998545050726708);
        [lra | exact U4 | lra]).
  assert (L6 : 0.994192364895244 <= exp (-5.9640831614 / 1024))
    by (apply (exp_square_lower (-5.9640831614 / 2048) _ 0.997091954082092);
        [lra | lra | exact L5 | lra]).
  assert (U6 : exp (-5.9640831614 / 1024) <= 0.994192891855844)
    by (apply (exp_square_upper (-5.9640831614 / 2048) _ 0.997092218330804);
        [lra | exact U5 | lra]).
  assert (L7 : 0.988418458415997 <= exp (-5.9640831614 / 512))
    by (apply (exp_square_lower (-5.9640831614 / 1024) _ 0.994192364895244);
        [lra | lra | exact L6 | lra]).
  assert (U7 : exp (-5.9640831614 / 512) <= 0.988419506216686)
    by (apply (exp_square_upper (-5.9640831614 / 1024) _ 0.994192891855844);
        [lra | exact U6 | lra]).
  assert (L8 : 0.976971048937455 <= exp (-5.9640831614 / 256))
    by (apply (exp_square_lower (-5.9640831614 / 512) _ 0.988418458415997);
        [lra | lra | exact L7 | lra]).
  assert (U8 : exp (-5.9640831614 / 256) <= 0.976973120269638)
    by (apply (exp_square_upper (-5.9640831614 / 512) _ 0.988419506216686);
        [lra | exact U7 | lra]).
  assert (L9 : 0.954472430461951 <= exp (-5.9640831614 / 128))
    by (apply (exp_square_lower (-5.9640831614 / 256) _ 0.976971048937455);
        [lra | lra | exact L8 | lra]).
  assert (U9 : exp (-5.9640831614 / 128) <= 0.954476477729393)
    by (apply (exp_square_upper (-5.9640831614 / 256) _ 0.976973120269638);
        [lra | exact U8 | lra]).
  assert (L10 : 0.911017620511943 <= exp (-5.9640831614 / 64))
    by (apply (exp_square_lower (-5.9640831614 / 128) _ 0.954472430461951);
        [lra | lra | exact L9 | lra]).
  assert (U10 : exp (-5.9640831614 / 64) <= 0.911025346538709)
    by (apply (exp_square_upper (-5.9640831614 / 128) _ 0.954476477729393);
        [lra | exact U9 | lra]).
  assert (L11 : 0.829953104883242 <= exp (-5.9640831614 / 32))
    by (apply (exp_square_lower (-5.9640831614 / 64) _ 0.911017620511943);
        [lra | lra | exact L10 | lra]).
  assert (U11 : exp (-5.9640831614 / 32) <= 0.829967182035975)
    by (apply (exp_square_upper (-5.9640831614 / 64) _ 0.911025346538709);
        [lra | exact U10 | lra]).
  assert (L12 : 0.688822156305333 <= exp (-5.9640831614 / 16))
    by (apply (exp_square_lower (-5.9640831614 / 32) _ 0.829953104883242);
        [lra | lra | exact L11 | lra]).
  assert (U12 : exp (-5.9640831614 / 16) <= 0.688845523256738)
    by (apply (exp_square_upper (-5.9640831614 / 32) _ 0.829967182035975);
        [lra | exact U11 | lra]).
  assert (L13 : 0.474475963017128 <= exp (-5.9640831614 / 8))
    by (apply (exp_square_lower (-5.9640831614 / 16) _ 0.688822156305333);
        [lra | lra | exact L12 | lra]).
  assert (U13 : exp (-5.9640831614 / 8) <= 0.474508154910850)
    by (apply (exp_square_upper (-5.9640831614 / 16) _ 0.688845523256738);
        [lra | exact U12 | lra]).
  assert (L14 : 0.225127439481031 <= exp (-5.9640831614 / 4))
    by (apply (exp_square_lower (-5.9640831614 / 8) _ 0.474475963017128);
        [lra | lra | exact L13 | lra]).
  assert (U14 : exp (-5.9640831614 / 4) <= 0.225157989076900)
    by (apply (exp_square_upper (-5.9640831614 / 8) _ 0.474508154910850);
        [lra | exact U13 | lra]).
  assert (L15 : 0.050682364007285 <= exp (-5.9640831614 / 2))
    by (apply (exp_square_lower (-5.9640831614 / 4) _ 0.225127439481031);
        [lra | lra | exact L14 | lra]).
  assert (U15 : exp (-5.9640831614 / 2) <= 0.050696120045154)
    by (apply (exp_square_upper (-5.9640831614 / 4) _ 0.225157989076900);
        [lra | exact U14 | lra]).
  assert (L16 : 0.002568702021366 <= exp (-5.9640831614))
    by (apply (exp_square_lower (-5.9640831614 / 2) _ 0.050682364007285);
        [lra | lra | exact L15 | lra]).
  assert (U16 : exp (-5.9640831614) <= 0.002570096587633)
    by (apply (exp_square_upper (-5.9640831614 / 2) _ 0.050696120045154);
        [lra | exact U15 | lra]).
  lra.
Qed.


(** C2: [decodeText] concatenates the bytes of every token, in order, and
    decodes the concatenation as UTF-8; it raises [UnicodeDecodeError]
    exactly when the concatenation is not valid UTF-8, and otherwise returns
    the scalar values the concatenation encodes.  Cell 25 does the same on
    the reply it finds: it leaves the concatenation in [aggregated_bytes],
    raises [UnicodeDecodeError] exactly when the concatenation is not valid
    UTF-8, printing nothing, and otherwise binds [aggregated_text] to the
    decoded text and prints it first.  The recorded fragments of the three
    emojis decode to exactly those three characters, and that is the text
    the cell leaves for the recorded reply. *)
Theorem decodeText_utf8 (tokens : list ChatCompletionTokenLogprob)
    (Hbytes : Forall (fun t => forallb is_byte (bytes t) = true) tokens) :
  decodeText tokens = py_decode_utf8 (List.concat (map bytes tokens))
  /\ (decodeText tokens = Raise UnicodeDecodeError
      <-> ~ Utf8.valid (List.concat (map bytes tokens)))
  /\ (forall e, decodeText tokens = Raise e -> e = UnicodeDecodeError)
  /\ (forall s, decodeText tokens = Ok s
      <-> Forall (fun c => Utf8.is_scalar c = true) s
          /\ Utf8.encode s = List.concat (map bytes tokens))
  /\ decodeText emoji_tokens = Ok emoji_text
  /\ (forall (g : Globals) (text : pystr),
        let run :=
          (cell23 {| content := tokens; message := text |} ;; cell25) g in
        aggregated_bytes (globals_after run)
        = Some (List.concat (map bytes tokens))
        /\ (outcome run = Raise UnicodeDecodeError
            <-> ~ Utf8.valid (List.concat (map bytes tokens)))
        /\ (outcome run = Raise UnicodeDecodeError -> printed run = [])
        /\ (forall s,
              Forall (fun c => Utf8.is_scalar c = true) s ->
              Utf8.encode s = List.concat (map bytes tokens) ->
              aggregated_text (globals_after run) = Some s
              /\ exists rest, printed run = Str s :: Text newline :: rest))
  /\ aggregated_text after_emoji = Some emoji_text.
Proof.
  pose proof (decodeText_concat tokens Hbytes) as E.
  split; [exact E|]. split; [|split; [|split; [|split; [|split]]]].
  - rewrite E, py_decode_utf8_raise. tauto.
  - intros e He. rewrite E in He. apply py_decode_utf8_raise in He. tauto.
  - intros s. rewrite E. apply py_decode_utf8_ok.
  - apply decodeText_emoji.
  - intros g text run. subst run. rewrite process25_run.
    rewrite (cell25_run _ {| content := tokens; message := text |})
      by reflexivity.
    unfold before_decoding. cbn [content message].
    assert (Hab : aggregated_bytes_loop tokens
                  = List.concat (map bytes tokens))
      by apply aggregated_bytes_loop_concat.
    rewrite Hab.
    destruct (decodeText tokens) as [s|e] eqn:D.
    + assert (Hs : Forall (fun c => Utf8.is_scalar c = true) s
                   /\ Utf8.encode s = List.concat (map bytes tokens)).
      { apply py_decode_utf8_ok. symmetry. exact E. }
      assert (Hvalid : Utf8.valid (List.concat (map bytes tokens))).
      { exists s. exact Hs. }
      assert (Hunique : forall s',
                 Forall (fun c => Utf8.is_scalar c = true) s' ->
                 Utf8.encode s' = List.concat (map bytes tokens) -> s' = s).
      { intros s' H1 H2.
        assert (D' : py_decode_utf8 (List.concat (map bytes tokens)) = Ok s')
          by (apply py_decode_utf8_ok; split; assumption).
        rewrite <- E in D'. congruence. }
      destruct (pystr_eqb text s).
      * cbn. split; [reflexivity|]. split; [|split].
        -- split; [discriminate | intros H; contradiction].
        -- discriminate.
        -- intros s' H1 H2. rewrite (Hunique s' H1 H2).
           split; [reflexivity|]. unfold report. eexists. reflexivity.
      * cbn. split; [reflexivity|]. split; [|split].
        -- split; [discriminate | intros H; contradiction].
        -- discriminate.
        -- intros s' H1 H2. rewrite (Hunique s' H1 H2).
           split; [reflexivity|]. eexists. reflexivity.
    + symmetry in E. apply py_decode_utf8_raise in E.
      destruct E as [-> Hinvalid].
      cbn. split; [reflexivity|]. split; [|split].
      * tauto.
      * reflexivity.
      * intros s' H1 H2. exfalso. apply Hinvalid. exists s'. tauto.
  - unfold after_emoji. rewrite process25_run.
    rewrite (cell25_run _ emoji_response) by reflexivity.
    cbn [content emoji_response]. rewrite decodeText_emoji. reflexivity.
Qed.

Lemma decodeText_utf8_witness :
  decodeText emoji_tokens
  = py_decode_utf8 (List.concat (map bytes emoji_tokens))
  /\ decodeText emoji_tokens = Ok emoji_text
  /\ aggregated_bytes
       (globals_after ((cell23 emoji_response ;; cell25) fresh))
     = Some (List.concat (map bytes emoji_tokens))
  /\ aggregated_text after_emoji = Some emoji_text.
Proof.
  assert (H : Forall (fun t => forallb is_byte (bytes t) = true)
                emoji_tokens) by (repeat constructor).
  pose proof (decodeText_utf8 emoji_tokens H) as T.
  destruct T as [T1 [_ [_ [_ [T5 [T6 T7]]]]]].
  split; [exact T1|]. split; [exact T5|]. split; [|exact T7].
  exact (proj1 (T6 fresh emoji_text)).
Defined.

(** Outside [range(0, 256)] the failure is the [ValueError] of [bytes]. *)
Lemma decodeText_not_bytes :
  decodeText [tok "x" [256]%Z 0] = Raise ValueError.
Proof. reflexivity. Qed.

(** C3: when the concatenated bytes of a response decode to a text, cell 25
    completes exactly when that text equals the message text reported by
    the service; when they differ the cell raises [AssertionError] right
    after printing the decoded text, and nothing after the [assert] runs. *)
Theorem cell25_consistency_check (g : Globals) (r : ChatCompletion)
    (s : pystr) (Hdec : decodeText (content r) = Ok s) :
  let run := (cell23 r ;; cell25) g in
  (outcome run = Ok tt <-> s = message r)
  /\ (s = message r -> printed run = report r s)
  /\ (s <> message r ->
      outcome run = Raise AssertionError
      /\ printed run = [Str s; Text newline]).
Proof.
  intros run. subst run. rewrite process25_run.
  rewrite (cell25_run _ r) by reflexivity. rewrite Hdec.
  destruct (pystr_eqb (message r) s) eqn:Eq.
  - apply pystr_eqb_true in Eq. subst s. cbn.
    split; [tauto|]. split; [reflexivity|]. intros H. contradiction.
  - apply pystr_eqb_false in Eq. cbn.
    split; [|split].
    + split; [discriminate|]. intros ->. contradiction.
    + intros ->. contradiction.
    + intros _. split; reflexivity.
Qed.

Lemma cell25_consistency_check_witness :
  outcome ((cell23 emoji_response ;; cell25) fresh) = Ok tt
  /\ printed ((cell23 emoji_response ;; cell25) fresh)
     = report emoji_response emoji_text.
Proof.
  pose proof (cell25_consistency_check fresh emoji_response emoji_text
                decodeText_emoji) as T.
  cbv zeta in T. destruct T as [T1 [T2 _]].
  split; [apply T1; reflexivity | apply T2; reflexivity].
Defined.

(** A reply whose bytes spell "A" while its message says "B". *)
Lemma cell25_mismatch g :
  let r := {| content := [tok "A" [65]%Z 0]; message := [66]%Z |} in
  outcome ((cell23 r ;; cell25) g) = Raise AssertionError
  /\ printed ((cell23 r ;; cell25) g) = [Str [65]%Z; Text newline].
Proof.
  intros r. rewrite process25_run.
  rewrite (cell25_run _ r) by reflexivity.
  split; reflexivity.
Qed.

(** When the bytes of a reply decode, cell 25 binds the text to
    [aggregated_text], whatever the message says. *)
Lemma cell25_binds_text g tokens text s :
  decodeText tokens = Ok s ->
  aggregated_text
    (globals_after
       ((cell23 {| content := tokens; message := text |} ;; cell25) g))
  = Some s.
Proof.
  intros D. rewrite process25_run.
  rewrite (cell25_run _ {| content := tokens; message := text |})
    by reflexivity.
  cbn [content message]. rewrite D.
  destruct (pystr_eqb text s); reflexivity.
Qed.

End Aggregation.

(** ** Outcome and globals of a sequence *)

Section Sequencing.
Local Open Scope cell_scope.

Lemma bind_parts {A B : Type} (m : M A) (f : A -> M B) g a g1 o1 :
  m g = (Ok a, g1, o1) ->
  bind m f g
  = (outcome (f a g1), globals_after (f a g1), o1 ++ printed (f a g1)).
Proof.
  intros E. unfold bind, outcome, globals_after, printed. rewrite E.
  destruct (f a g1) as [[r g2] o2]. reflexivity.
Qed.

Lemma outcome_bind {A B : Type} (m : M A) (f : A -> M B) g :
  outcome (bind m f g)
  = match outcome (m g) with
    | Ok a => outcome (f a (globals_after (m g)))
    | Raise e => Raise e
    end.
Proof.
  unfold bind, outcome, globals_after.
  destruct (m g) as [[[a|e] g1] o1]; cbn [fst snd]; [|reflexivity].
  destruct (f a g1) as [[r g2] o2]. reflexivity.
Qed.

Lemma globals_after_bind {A B : Type} (m : M A) (f : A -> M B) g :
  globals_after (bind m f g)
  = match outcome (m g) with
    | Ok a => globals_after (f a (globals_after (m g)))
    | Raise e => globals_after (m g)
    end.
Proof.
  unfold bind, outcome, globals_after.
  destruct (m g) as [[[a|e] g1] o1]; cbn [fst snd]; [|reflexivity].
  destruct (f a g1) as [[r g2] o2]. reflexivity.
Qed.

Lemma printed_bind {A B : Type} (m : M A) (f : A -> M B) g :
  printed (bind m f g)
  = match outcome (m g) with
    | Ok a => printed (m g) ++ printed (f a (globals_after (m g)))
    | Raise e => printed (m g)
    end.
Proof.
  unfold bind, outcome, globals_after, printed.
  destruct (m g) as [[[a|e] g1] o1]; cbn [fst snd]; [|reflexivity].
  destruct (f a g1) as [[r g2] o2]. reflexivity.
Qed.

Lemma printed_bind_raise {A B : Type} (m : M A) (f : A -> M B) g e :
  outcome (m g) = Raise e -> printed (bind m f g) = printed (m g).
Proof.
  unfold bind, outcome, printed.
  destruct (m g) as [[[a|e'] g1] o1]; cbn [fst snd]; intros H;
    [discriminate|reflexivity].
Qed.

End Sequencing.

(** ** highlight_text *)

Section Highlight.
Local Open Scope cell_scope.

Lemma py_bytes_ok ints : forallb is_byte ints = true -> py_bytes ints = Ok ints.
Proof. intros H. unfold py_bytes. rewrite H. reflexivity. Qed.

(** The loop stops with [UnicodeDecodeError] at the first token whose own
    bytes are not valid UTF-8. *)
Lemma highlight_loop_raises tokens :
  forall color_idx g,
    Forall (fun t => forallb is_byte (bytes t) = true) tokens ->
    Exists (fun t => ~ Utf8.valid (bytes t)) tokens ->
    outcome (highlight_loop tokens color_idx g) = Raise UnicodeDecodeError.
Proof.
  induction tokens as [|t ts IH]; intros color_idx g Hb Hx.
  - inversion Hx.
  - inversion Hb as [|? ? Hbt Hbts]; subst.
    cbn [highlight_loop]. rewrite outcome_bind.
    rewrite (py_bytes_ok _ Hbt). cbn [lift outcome globals_after fst snd].
    rewrite outcome_bind. unfold py_decode_utf8.
    destruct (Utf8.decode (bytes t)) as [s|] eqn:Ed;
      cbn [lift outcome globals_after fst snd]; [|reflexivity].
    rewrite outcome_bind. cbn [print_end_empty outcome globals_after fst snd].
    apply IH; [assumption|].
    inversion Hx as [? ? Hbad|? ? Hrest]; subst; [|assumption].
    exfalso. apply Hbad. exists s. apply Utf8Facts.decode_sound, Ed.
Qed.

(** When every token decodes on its own the loop completes. *)
Lemma highlight_loop_completes tokens :
  forall color_idx g,
    Forall (fun t => forallb is_byte (bytes t) = true) tokens ->
    Forall (fun t => Utf8.valid (bytes t)) tokens ->
    outcome (highlight_loop tokens color_idx g) = Ok tt.
Proof.
  induction tokens as [|t ts IH]; intros color_idx g Hb Hv.
  - reflexivity.
  - inversion Hb as [|? ? Hbt Hbts]; subst.
    inversion Hv as [|? ? Hvt Hvts]; subst.
    cbn [highlight_loop]. rewrite outcome_bind.
    rewrite (py_bytes_ok _ Hbt). cbn [lift outcome globals_after fst snd].
    rewrite outcome_bind. unfold py_decode_utf8.
    destruct (Utf8.decode (bytes t)) as [s|] eqn:Ed;
      cbn [lift outcome globals_after fst snd].
    + rewrite outcome_bind.
      cbn [print_end_empty outcome globals_after fst snd].
      apply IH; assumption.
    + exfalso. apply Utf8Facts.decode_none_iff in Ed. contradiction.
Qed.

Lemma lead_bytes_invalid : ~ Utf8.valid [240; 159]%Z.
Proof. apply Utf8Facts.decode_none_iff. reflexivity. Qed.

(** C10: [highlight_text] decodes the bytes of each token on their own.
    For every response with byte-valued fragments, it raises
    [UnicodeDecodeError] as soon as some token's fragment is not valid
    UTF-8 by itself, and completes when every fragment is; on the recorded
    emoji reply it raises before printing anything, although the
    concatenation of the same fragments decodes to the three emojis. *)
Theorem highlight_text_decodes_per_token (api_response : ChatCompletion)
    (g : Globals)
    (Hbytes : Forall (fun t => forallb is_byte (bytes t) = true)
                (content api_response)) :
  (Exists (fun t => ~ Utf8.valid (bytes t)) (content api_response) ->
   outcome (highlight_text api_response g) = Raise UnicodeDecodeError)
  /\ (Forall (fun t => Utf8.valid (bytes t)) (content api_response) ->
      outcome (highlight_text api_response g) = Ok tt)
  /\ decodeText (content emoji_response) = Ok emoji_text
  /\ outcome (highlight_text emoji_response g) = Raise UnicodeDecodeError
  /\ printed (highlight_text emoji_response g) = [].
Proof.
  split; [|split; [|split; [|split]]].
  - intros Hx. unfold highlight_text. rewrite outcome_bind.
    rewrite (highlight_loop_raises _ 0%nat g Hbytes Hx). reflexivity.
  - intros Hv. unfold highlight_text. rewrite outcome_bind.
    rewrite (highlight_loop_completes _ 0%nat g Hbytes Hv).
    rewrite outcome_bind. reflexivity.
  - apply decodeText_emoji.
  - reflexivity.
  - reflexivity.
Qed.

Lemma highlight_text_decodes_per_token_witness :
  outcome (highlight_text emoji_response fresh) = Raise UnicodeDecodeError.
Proof.
  assert (Hb : Forall (fun t => forallb is_byte (bytes t) = true)
                 (content emoji_response)) by (repeat constructor).
  assert (Hx : Exists (fun t => ~ Utf8.valid (bytes t))
                 (content emoji_response)).
  { apply Exists_cons_hd. exact lead_bytes_invalid. }
  exact (proj1 (highlight_text_decodes_per_token emoji_response fresh Hb) Hx).
Defined.

End Highlight.

(** ** The lines of the classification report *)

Section AlternativeLines.
Local Open Scope R_scope.
Local Open Scope cell_scope.

(** The inner loop of cell 12 prints every alternative, in the order of
    the reply, and selects none. *)
Lemma report_alternatives label alts g :
  for_each alts (fun logprob => print (alternative_line label logprob)) g
  = (Ok tt, g, alternative_lines label alts).
Proof.
  induction alts as [|a alts IH]; [reflexivity|].
  cbn [for_each alternative_lines flat_map].
  erewrite bind_output; [reflexivity | reflexivity | exact IH].
Qed.

Lemma percent_near_one x : -0.00004 < x -> x <= 0 -> linear_percent x = 100.
Proof.
  intros Hlo Hhi. unfold linear_percent, np_round2, linearProbability.
  rewrite (rint_nearest _ 10000).
  - lra.
  - pose proof (exp_ineq1_le x). pose proof (exp_le_1 x Hhi). lra.
Qed.

End AlternativeLines.

(** ** The autocomplete loop: cell 30 *)

Section Autocomplete.
Local Open Scope R_scope.
Local Open Scope cell_scope.

Lemma keeps_bind {A B : Type} (m : M A) (f : A -> M B) :
  keeps_unbound m -> (forall a, keeps_unbound (f a)) ->
  keeps_unbound (bind m f).
Proof.
  intros Hm Hf g Hg. rewrite globals_after_bind.
  destruct (outcome (m g)) as [a|e]; [apply Hf|]; apply Hm, Hg.
Qed.

Lemma keeps_same {A : Type} (m : M A) :
  (forall g, globals_after (m g) = g) -> keeps_unbound m.
Proof. intros H g Hg. rewrite H. exact Hg. Qed.

Lemma keeps_read {A : Type} (name : Globals -> option A) :
  keeps_unbound (read name).
Proof.
  apply keeps_same. intros g. unfold read.
  destruct (name g); reflexivity.
Qed.

Lemma keeps_lift {A : Type} (r : result A) : keeps_unbound (lift r).
Proof. apply keeps_same. reflexivity. Qed.

Lemma keeps_print l : keeps_unbound (print l).
Proof. apply keeps_same. reflexivity. Qed.

Lemma keeps_print_end_empty l : keeps_unbound (print_end_empty l).
Proof. apply keeps_same. reflexivity. Qed.

Lemma keeps_ret {A : Type} (a : A) : keeps_unbound (ret a).
Proof. apply keeps_same. reflexivity. Qed.

Lemma keeps_assert c : keeps_unbound (assert c).
Proof. apply keeps_same. destruct c; reflexivity. Qed.

Lemma keeps_index0 {A : Type} (l : list A) : keeps_unbound (index0 l).
Proof. apply keeps_same. destruct l; reflexivity. Qed.

Lemma keeps_write set :
  (forall g, high_prob_completions (set g) = high_prob_completions g) ->
  keeps_unbound (write set).
Proof. intros H g Hg. cbn. rewrite H. exact Hg. Qed.

Lemma keeps_for_each {A : Type} (l : list A) (body : A -> M unit) :
  (forall a, keeps_unbound (body a)) -> keeps_unbound (for_each l body).
Proof.
  intros Hb. induction l as [|a l IH]; cbn [for_each].
  - apply keeps_ret.
  - apply keeps_bind; [apply Hb | intros _; exact IH].
Qed.

(** The one assignment through the name: with the name unbound it raises
    before writing. *)
Lemma keeps_store tok : keeps_unbound (store_high_prob_completion tok).
Proof.
  intros g Hg. unfold store_high_prob_completion.
  rewrite globals_after_bind, (read_unbound _ g Hg). exact Hg.
Qed.

Lemma keeps_suggest a : keeps_unbound (suggest a).
Proof.
  unfold suggest. apply keeps_bind; [apply keeps_print|intros _].
  destruct (meetsThreshold (top_logprob a) 0.95);
    [apply keeps_store | apply keeps_ret].
Qed.

Ltac keeps :=
  repeat first
    [ apply keeps_store
    | apply keeps_suggest
    | apply keeps_for_each; intros ?
    | apply keeps_bind; [|intros ?]
    | apply keeps_read | apply keeps_lift | apply keeps_print
    | apply keeps_print_end_empty | apply keeps_ret | apply keeps_assert
    | apply keeps_index0
    | apply keeps_write; reflexivity ].

Lemma keeps_cell12 gc headlines : keeps_unbound (cell12 gc headlines).
Proof. unfold cell12. keeps. Qed.

Lemma keeps_cell23 r : keeps_unbound (cell23 r).
Proof. unfold cell23. keeps. Qed.

Lemma keeps_cell25 : keeps_unbound cell25.
Proof. unfold cell25. keeps. Qed.

Lemma keeps_complete_sentence gc s : keeps_unbound (complete_sentence gc s).
Proof. unfold complete_sentence. keeps. Qed.

Lemma keeps_cell30 gc sentences : keeps_unbound (cell30 gc sentences).
Proof.
  unfold cell30. apply keeps_for_each. intros s.
  apply keeps_complete_sentence.
Qed.

Lemma keeps_cell34 : keeps_unbound cell34.
Proof. unfold cell34. keeps. Qed.

Lemma keeps_highlight_loop tokens :
  forall color_idx, keeps_unbound (highlight_loop tokens color_idx).
Proof.
  induction tokens as [|t ts IH]; intros color_idx; cbn [highlight_loop].
  - apply keeps_ret.
  - keeps. apply IH.
Qed.

Lemma keeps_highlight_text r : keeps_unbound (highlight_text r).
Proof.
  unfold highlight_text. apply keeps_bind; [apply keeps_highlight_loop|].
  intros _. keeps.
Qed.

(** One alternative, with the name unbound. *)
Lemma suggest_unbound a g :
  high_prob_completions g = None ->
  outcome (suggest a g)
  = (if meetsThreshold (top_logprob a) 0.95 then Raise NameError else Ok tt)
  /\ globals_after (suggest a g) = g.
Proof.
  intros Hg. unfold suggest. rewrite outcome_bind, globals_after_bind.
  cbn [print print_end_empty outcome globals_after fst snd].
  destruct (meetsThreshold (top_logprob a) 0.95).
  - unfold store_high_prob_completion.
    rewrite outcome_bind, globals_after_bind, (read_unbound _ g Hg).
    split; reflexivity.
  - split; reflexivity.
Qed.

(** The inner loop, with the name unbound. *)
Lemma suggestions_unbound alts :
  forall g,
    high_prob_completions g = None ->
    outcome (for_each alts suggest g)
    = (if some_above_095 alts then Raise NameError else Ok tt)
    /\ globals_after (for_each alts suggest g) = g.
Proof.
  induction alts as [|a alts IH]; intros g Hg.
  - split; reflexivity.
  - cbn [for_each some_above_095 existsb].
    rewrite outcome_bind, globals_after_bind.
    destruct (suggest_unbound a g Hg) as [Ho Hs]. rewrite Ho.
    destruct (meetsThreshold (top_logprob a) 0.95); cbn [orb].
    + split; [reflexivity|exact Hs].
    + rewrite Hs. apply IH, Hg.
Qed.

(** One sentence, with the name unbound. *)
Lemma complete_sentence_unbound gc s g :
  high_prob_completions g = None ->
  outcome (complete_sentence gc s g)
  = match content (gc s) with
    | [] => Raise IndexError
    | first :: _ =>
      if some_above_095 (top_logprobs first) then Raise NameError else Ok tt
    end.
Proof.
  intros Hg. unfold complete_sentence.
  rewrite outcome_bind. cbn [write outcome globals_after fst snd].
  rewrite outcome_bind. cbn [read sentence set_sentence outcome
                             globals_after fst snd].
  rewrite outcome_bind. cbn [write outcome globals_after fst snd].
  rewrite outcome_bind. cbn [read sentence set_sentence set_API_RESPONSE
                             outcome globals_after fst snd].
  rewrite outcome_bind. cbn [print print_end_empty outcome
                             globals_after fst snd].
  rewrite outcome_bind. cbn [read API_RESPONSE set_API_RESPONSE outcome
                             globals_after fst snd].
  rewrite outcome_bind.
  destruct (content (gc s)) as [|first rest];
    cbn [index0 raise ret outcome globals_after fst snd]; [reflexivity|].
  rewrite outcome_bind.
  destruct (suggestions_unbound (top_logprobs first)
              (set_API_RESPONSE (gc s) (set_sentence s g)) Hg) as [Ho _].
  rewrite Ho.
  destruct (some_above_095 (top_logprobs first)); reflexivity.
Qed.

Lemma some_above_095_true alts :
  some_above_095 alts = true <->
  exists a, In a alts /\ linearProbability (top_logprob a) > 0.95.
Proof.
  unfold some_above_095. rewrite existsb_exists.
  split; intros (a & Ha & H); exists a; (split; [exact Ha|]);
    unfold meetsThreshold in *; apply Rgtb_true; exact H.
Qed.

(** The whole loop: with the name unbound, the first sentence that has an
    alternative above the threshold ends the cell with [NameError]. *)
Lemma cell30_raises gc sentences :
  forall g,
    high_prob_completions g = None ->
    (forall s, In s sentences -> content (gc s) <> []) ->
    (exists s first rest,
        In s sentences /\ content (gc s) = first :: rest
        /\ some_above_095 (top_logprobs first) = true) ->
    outcome (cell30 gc sentences g) = Raise NameError.
Proof.
  unfold cell30.
  induction sentences as [|s0 ss IH]; intros g Hg Hne Hex.
  - destruct Hex as (s & _ & _ & [] & _).
  - cbn [for_each]. rewrite outcome_bind.
    rewrite (complete_sentence_unbound gc s0 g Hg).
    destruct (content (gc s0)) as [|first0 rest0] eqn:Ec.
    { exfalso. apply (Hne s0); [left; reflexivity|exact Ec]. }
    destruct (some_above_095 (top_logprobs first0)) eqn:E0; [reflexivity|].
    apply IH.
    + apply keeps_complete_sentence, Hg.
    + intros s Hs. apply Hne. right. exact Hs.
    + destruct Hex as (s & first & rest & [<-|Hin] & Hc & Hab).
      * rewrite Ec in Hc. injection Hc as <- <-. congruence.
      * exists s, first, rest. auto.
Qed.

End Autocomplete.

Section AutocompleteBound.
Local Open Scope R_scope.
Local Open Scope cell_scope.

(** One alternative, with the name bound: the test decides whether the
    dict is updated under the current sentence. *)
Lemma suggest_bound a g d k :
  high_prob_completions g = Some d -> sentence g = Some k ->
  outcome (suggest a g) = Ok tt
  /\ high_prob_completions (globals_after (suggest a g))
     = Some (if meetsThreshold (top_logprob a) 0.95
             then dict_set d k (top_token a) else d)
  /\ sentence (globals_after (suggest a g)) = Some k.
Proof.
  intros Hd Hk. unfold suggest. rewrite outcome_bind, globals_after_bind.
  cbn [print print_end_empty outcome globals_after fst snd].
  destruct (meetsThreshold (top_logprob a) 0.95).
  - unfold store_high_prob_completion.
    rewrite outcome_bind, globals_after_bind, (read_bound _ g d Hd).
    cbn [outcome globals_after fst snd].
    rewrite outcome_bind, globals_after_bind, (read_bound _ g k Hk).
    cbn [outcome globals_after fst snd write]. repeat split. exact Hk.
  - cbn [ret outcome globals_after fst snd]. repeat split; assumption.
Qed.

Lemma suggestions_bound alts :
  forall g d k,
    high_prob_completions g = Some d -> sentence g = Some k ->
    outcome (for_each alts suggest g) = Ok tt
    /\ high_prob_completions (globals_after (for_each alts suggest g))
       = Some (suggestions d k alts)
    /\ sentence (globals_after (for_each alts suggest g)) = Some k.
Proof.
  induction alts as [|a alts IH]; intros g d k Hd Hk.
  - repeat split; assumption.
  - cbn [for_each]. rewrite outcome_bind, globals_after_bind.
    destruct (suggest_bound a g d k Hd Hk) as (Ho & Hd' & Hk').
    rewrite Ho. exact (IH _ _ _ Hd' Hk').
Qed.

Lemma complete_sentence_bound gc s g d :
  high_prob_completions g = Some d -> content (gc s) <> [] ->
  outcome (complete_sentence gc s g) = Ok tt
  /\ high_prob_completions (globals_after (complete_sentence gc s g))
     = Some (suggestions d s (first_alternatives gc s)).
Proof.
  intros Hd Hne. unfold complete_sentence, first_alternatives.
  rewrite outcome_bind, globals_after_bind.
  cbn [write outcome globals_after fst snd].
  rewrite outcome_bind, globals_after_bind.
  cbn [read sentence set_sentence outcome globals_after fst snd].
  rewrite outcome_bind, globals_after_bind.
  cbn [write outcome globals_after fst snd].
  rewrite outcome_bind, globals_after_bind.
  cbn [read sentence set_sentence set_API_RESPONSE outcome globals_after
       fst snd].
  rewrite outcome_bind, globals_after_bind.
  cbn [print print_end_empty outcome globals_after fst snd].
  rewrite outcome_bind, globals_after_bind.
  cbn [read API_RESPONSE set_API_RESPONSE outcome globals_after fst snd].
  rewrite outcome_bind, globals_after_bind.
  destruct (content (gc s)) as [|first rest]; [contradiction|].
  cbn [index0 ret outcome globals_after fst snd].
  rewrite outcome_bind, globals_after_bind.
  destruct (suggestions_bound (top_logprobs first)
              (set_API_RESPONSE (gc s) (set_sentence s g)) d s Hd eq_refl)
    as (Ho & Hd' & _).
  rewrite Ho. cbn [print print_end_empty outcome globals_after fst snd].
  split; [reflexivity|exact Hd'].
Qed.

(** With the name bound to a dict, cell 30 completes and the dict
    accumulates the suggestions of all the requests. *)
Lemma cell30_bound gc sentences :
  forall g d,
    high_prob_completions g = Some d ->
    (forall s, In s sentences -> content (gc s) <> []) ->
    outcome (cell30 gc sentences g) = Ok tt
    /\ high_prob_completions (globals_after (cell30 gc sentences g))
       = Some (fold_left
                 (fun d s => suggestions d s (first_alternatives gc s))
                 sentences d).
Proof.
  unfold cell30.
  induction sentences as [|s0 ss IH]; intros g d Hd Hne.
  - split; [reflexivity|exact Hd].
  - cbn [for_each fold_left]. rewrite outcome_bind, globals_after_bind.
    destruct (complete_sentence_bound gc s0 g d Hd
                (Hne s0 (or_introl eq_refl))) as [Ho Hd'].
    rewrite Ho. apply IH; [exact Hd'|].
    intros s Hs. apply Hne. right. exact Hs.
Qed.

End AutocompleteBound.

Section AutocompleteRecorded.
Local Open Scope R_scope.
Local Open Scope string_scope.

Lemma recorded_autocomplete_nonempty s :
  In s sentence_list -> content (recorded_autocomplete s) <> [].
Proof.
  intros Hs.
  repeat (destruct Hs as [<-|Hs]; [discriminate|]).
  destruct Hs.
Qed.

Lemma suggestions_nil d k : suggestions d k [] = d.
Proof. reflexivity. Qed.

Lemma suggestions_above d k t b lp alts :
  -0.05 < lp ->
  suggestions d k ({| top_token := t; top_bytes := b; top_logprob := lp |}
                   :: alts)
  = suggestions (dict_set d k t) k alts.
Proof.
  intros H. unfold suggestions. cbn [fold_left top_logprob top_token].
  rewrite (meets_095_high lp H). reflexivity.
Qed.

Lemma suggestions_below d k t b lp alts :
  lp <= -0.1 ->
  suggestions d k ({| top_token := t; top_bytes := b; top_logprob := lp |}
                   :: alts)
  = suggestions d k alts.
Proof.
  intros H. unfold suggestions. cbn [fold_left top_logprob top_token].
  rewrite (meets_095_low lp H). reflexivity.
Qed.

(** Had the name been bound to an empty dict, cell 30 would complete on
    the recorded replies with "favorite" after "My least" and "show" after
    "My least favorite TV", accumulated over the six requests. *)
Lemma cell30_recorded_bound g :
  high_prob_completions g = Some [] ->
  outcome (cell30 recorded_autocomplete sentence_list g) = Ok tt
  /\ high_prob_completions
       (globals_after (cell30 recorded_autocomplete sentence_list g))
     = Some [("My least", "favorite"); ("My least favorite TV", "show")].
Proof.
  intros Hd.
  destruct (cell30_bound recorded_autocomplete sentence_list g [] Hd
              recorded_autocomplete_nonempty) as [Ho Hd'].
  split; [exact Ho|]. rewrite Hd'. f_equal.
  unfold sentence_list. cbn [fold_left].
  change (first_alternatives recorded_autocomplete "My")
    with [alt "favorite" (-0.18245785); alt "dog" (-2.397172);
          alt "ap" (-3.8732424)].
  change (first_alternatives recorded_autocomplete "My least")
    with [alt "favorite" (-0.013642592); alt "My" (-4.3126197);
          alt " favorite" (-9.684484)].
  change (first_alternatives recorded_autocomplete "My least favorite")
    with [alt "food" (-0.9481721); alt "My" (-1.3447137);
          alt "color" (-1.3887696)].
  change (first_alternatives recorded_autocomplete "My least favorite TV")
    with [alt "show" (-0.0007898556); alt "My" (-7.711523);
          alt "series" (-9.348547)].
  change (first_alternatives recorded_autocomplete
            "My least favorite TV show")
    with [alt "is" (-0.18206136); alt "of" (-2.123914);
          alt "My" (-3.213298)].
  change (first_alternatives recorded_autocomplete
            "My least favorite TV show is")
    with [alt (String (ascii_of_nat 34) "My") (-0.69349754);
          alt (String (ascii_of_nat 34) "The") (-1.2899293);
          alt "My" (-2.4170141)].
  unfold alt.
  repeat first
    [ rewrite suggestions_nil
    | rewrite suggestions_below by lra
    | rewrite suggestions_above by lra ].
  reflexivity.
Qed.

Lemma favorite_above_095 : linearProbability (-0.013642592) > 0.95.
Proof.
  unfold linearProbability. pose proof (exp_ineq1_le (-0.013642592)). lra.
Qed.

(** C9: [high_prob_completions] is bound by no cell: a fresh kernel has it
    unbound and each of the cells leaves it unbound if it was.  With the
    name unbound and replies that have a position 0, cell 30 raises
    [NameError] whenever some alternative of some sentence has a linear
    probability above 0.95, and records nothing.  The branch is reached on
    the recorded replies: "favorite" after "My least" has a linear
    probability above 0.95 (the notebook shows 98.65%). *)
Theorem high_prob_completions_unbound
    (get_completion : string -> ChatCompletion) (sentences : list string)
    (g : Globals)
    (Hunbound : high_prob_completions g = None)
    (Hcontent : forall s, In s sentences -> content (get_completion s) <> []) :
  ((exists s first rest a,
       In s sentences /\ content (get_completion s) = first :: rest
       /\ In a (top_logprobs first)
       /\ linearProbability (top_logprob a) > 0.95) ->
   outcome (cell30 get_completion sentences g) = Raise NameError)
  /\ high_prob_completions (globals_after (cell30 get_completion sentences g))
     = None
  /\ (forall gc headlines r,
        keeps_unbound (cell12 gc headlines) /\ keeps_unbound (cell23 r)
        /\ keeps_unbound cell25 /\ keeps_unbound (cell30 gc headlines)
        /\ keeps_unbound cell34 /\ keeps_unbound (highlight_text r))
  /\ high_prob_completions fresh = None
  /\ In (alt "favorite" (-0.013642592)) (autocomplete_alternatives "My least")
  /\ linearProbability (-0.013642592) > 0.95
  /\ outcome (cell30 recorded_autocomplete sentence_list g) = Raise NameError.
Proof.
  split; [|split; [|split; [|split; [|split; [|split]]]]].
  - intros (s & first & rest & a & Hs & Hc & Ha & Hp).
    apply cell30_raises; [assumption|assumption|].
    exists s, first, rest. split; [exact Hs|]. split; [exact Hc|].
    apply some_above_095_true. exists a. split; assumption.
  - apply keeps_cell30, Hunbound.
  - intros gc headlines r.
    repeat split;
      [apply keeps_cell12 | apply keeps_cell23 | apply keeps_cell25
      | apply keeps_cell30 | apply keeps_cell34 | apply keeps_highlight_text].
  - reflexivity.
  - left. reflexivity.
  - exact favorite_above_095.
  - apply cell30_raises;
      [exact Hunbound | exact recorded_autocomplete_nonempty |].
    eexists "My least", _, _.
    split; [right; left; reflexivity|]. split; [reflexivity|].
    apply some_above_095_true. eexists. split; [left; reflexivity|].
    exact favorite_above_095.
Qed.

Lemma high_prob_completions_unbound_witness :
  outcome (cell30 recorded_autocomplete sentence_list fresh) = Raise NameError.
Proof.
  pose proof (high_prob_completions_unbound recorded_autocomplete
                sentence_list fresh eq_refl recorded_autocomplete_nonempty)
    as T.
  apply (proj1 T).
  eexists "My least", _, _, _.
  split; [right; left; reflexivity|]. split; [reflexivity|].
  split; [left; reflexivity|]. exact favorite_above_095.
Defined.

End AutocompleteRecorded.

(** ** Globals across runs *)

Section Statefulness.
Local Open Scope R_scope.
Local Open Scope cell_scope.

Lemma cell25_unbound_response g :
  API_RESPONSE g = None ->
  cell25 g
  = (Raise NameError, set_joint_logprob 0 (set_aggregated_bytes [] g), []).
Proof.
  intros Hr. unfold cell25.
  erewrite bind_silent by reflexivity.
  erewrite bind_silent by reflexivity.
  erewrite bind_raise by (apply read_unbound, Hr).
  reflexivity.
Qed.

Lemma after_emoji_globals :
  after_emoji
  = set_aggregated_text emoji_text
      (before_decoding emoji_response
         (set_API_RESPONSE emoji_response fresh)).
Proof.
  unfold after_emoji. rewrite process25_run.
  rewrite (cell25_run _ emoji_response) by reflexivity.
  change (content emoji_response) with emoji_tokens.
  rewrite decodeText_emoji. reflexivity.
Qed.

(** C8, as amended: the outcome and the output of the aggregation cell are
    determined by the response bound to [API_RESPONSE] alone, since the cell
    rebinds its accumulators before it reads them; the accumulators are
    globals of the kernel, and after a response is processed
    [aggregated_bytes], [joint_logprob] and [message_content] stay bound to
    that response's values. *)
Theorem cell25_determined_by_response (g1 g2 : Globals)
    (Hsame : API_RESPONSE g1 = API_RESPONSE g2) :
  outcome (cell25 g1) = outcome (cell25 g2)
  /\ printed (cell25 g1) = printed (cell25 g2)
  /\ (forall r, API_RESPONSE g1 = Some r ->
        aggregated_bytes (globals_after (cell25 g1))
        = Some (aggregated_bytes_loop (content r))
        /\ joint_logprob (globals_after (cell25 g1))
           = Some (joint_logprob_loop (content r))
        /\ message_content (globals_after (cell25 g1)) = Some (message r)).
Proof.
  destruct (API_RESPONSE g1) as [r|] eqn:E1.
  - rewrite (cell25_run g1 r E1), (cell25_run g2 r (eq_sym Hsame)).
    destruct (decodeText (content r)) as [s|e].
    + destruct (pystr_eqb (message r) s).
      * split; [reflexivity|]. split; [reflexivity|].
        intros r' Hr'. injection Hr' as <-. repeat split; reflexivity.
      * split; [reflexivity|]. split; [reflexivity|].
        intros r' Hr'. injection Hr' as <-. repeat split; reflexivity.
    + split; [reflexivity|]. split; [reflexivity|].
      intros r' Hr'. injection Hr' as <-. repeat split; reflexivity.
  - rewrite (cell25_unbound_response g1 E1),
            (cell25_unbound_response g2 (eq_sym Hsame)).
    split; [reflexivity|]. split; [reflexivity|]. intros r' Hr'.
    discriminate.
Qed.

Lemma cell25_determined_by_response_witness :
  outcome (cell25 (set_API_RESPONSE emoji_response fresh))
  = outcome (cell25 (set_API_RESPONSE emoji_response after_emoji))
  /\ aggregated_bytes
       (globals_after (cell25 (set_API_RESPONSE emoji_response fresh)))
     = Some (aggregated_bytes_loop (content emoji_response)).
Proof.
  pose proof (cell25_determined_by_response
                (set_API_RESPONSE emoji_response fresh)
                (set_API_RESPONSE emoji_response after_emoji) eq_refl) as T.
  destruct T as [T1 [_ T3]].
  split; [exact T1 | exact (proj1 (T3 emoji_response eq_refl))].
Defined.

(** C8, as stated, fails.  Cell 25 leaves the accumulators of the processed
    reply bound in the kernel; and cell 34, run on a reply without tokens,
    raises [NameError] in a fresh kernel but completes, reporting the text
    of the earlier reply, in the kernel cell 25 left behind. *)
Lemma cells_not_stateless : ~ stateless cell25 /\ ~ stateless cell34.
Proof.
  split.
  - intros [_ H].
    specialize (H (set_API_RESPONSE emoji_response fresh)).
    rewrite (cell25_run _ emoji_response) in H by reflexivity.
    change (content emoji_response) with emoji_tokens in H.
    rewrite decodeText_emoji in H.
    apply (f_equal aggregated_bytes) in H. discriminate H.
  - intros [H _].
    specialize (H (set_API_RESPONSE empty_response fresh)
                  (set_API_RESPONSE empty_response after_emoji) eq_refl).
    destruct H as [H _]. rewrite after_emoji_globals in H.
    discriminate H.
Qed.

(** What cell 34 does in the two kernels. *)
Lemma cell34_stale_read :
  outcome (cell34 (set_API_RESPONSE empty_response fresh)) = Raise NameError
  /\ outcome (cell34 (set_API_RESPONSE empty_response after_emoji)) = Ok tt
  /\ printed (cell34 (set_API_RESPONSE empty_response after_emoji))
     = [Text "text = "; Str emoji_text; Text newline;
        Text "joint probability = "; Float (exp 0); Text newline].
Proof.
  rewrite after_emoji_globals. repeat split; reflexivity.
Qed.

End Statefulness.

(** ** The classification report: cell 12 *)

Section Classification.
Local Open Scope R_scope.
Local Open Scope cell_scope.

Lemma cell12_one_headline gc headline g first rest :
  content (gc headline) = first :: rest ->
  cell12 gc [headline] g
  = (Ok tt, set_API_RESPONSE (gc headline) g,
     [Text headline; Text newline]
     ++ alternative_lines "Token:" (top_logprobs first)
     ++ [Text newline; Text newline]).
Proof.
  intros Hc. unfold cell12. cbn [for_each].
  etransitivity.
  { eapply bind_output; [|reflexivity].
    eapply bind_output; [reflexivity|].
    erewrite bind_silent by reflexivity.
    erewrite bind_silent by reflexivity.
    cbv beta. rewrite Hc.
    erewrite bind_silent by reflexivity.
    eapply bind_output; [apply report_alternatives|].
    reflexivity. }
  cbn [app]. rewrite app_nil_r. reflexivity.
Qed.

(** The percentage displayed for Techn is 0.0. *)
Lemma percent_techn : linear_percent (-13.437503) = 0.
Proof.
  unfold linear_percent, np_round2, linearProbability.
  rewrite (rint_nearest _ 0); [lra|].
  pose proof (exp_pos (-13.437503)) as Hpos.
  set (y := -13.437503 / 32).
  assert (E5 : exp (-13.437503) = exp (16 * y) * exp (16 * y)).
  { rewrite <- exp_double. f_equal. unfold y. lra. }
  assert (E4 : exp (16 * y) = exp (8 * y) * exp (8 * y)).
  { rewrite <- exp_double. f_equal. lra. }
  assert (E3 : exp (8 * y) = exp (4 * y) * exp (4 * y)).
  { rewrite <- exp_double. f_equal. lra. }
  assert (E2 : exp (4 * y) = exp (2 * y) * exp (2 * y)).
  { rewrite <- exp_double. f_equal. lra. }
  assert (E1 : exp (2 * y) = exp y * exp y) by apply exp_double.
  assert (H0 : 0 < exp y <= 0.7043).
  { split; [apply exp_pos|].
    pose proof (exp_neg_upper y ltac:(unfold y; lra)) as H.
    pose proof (exp_pos y). unfold y in *. nra. }
  assert (H1 : 0 < exp (2 * y) <= 0.4961) by (rewrite E1; nra).
  assert (H2 : 0 < exp (4 * y) <= 0.2462) by (rewrite E2; nra).
  assert (H3 : 0 < exp (8 * y) <= 0.0607) by (rewrite E3; nra).
  assert (H4 : 0 < exp (16 * y) <= 0.0037) by (rewrite E4; nra).
  assert (H5 : exp (-13.437503) <= 0.00002) by (rewrite E5; nra).
  lra.
Qed.

(** What cell 12 prints for a headline whose reply carries the recorded
    alternatives Technology and Techn: both, in that order, with the
    percentages 100.0 and 0.0. *)
Lemma cell12_technology gc headline g first rest :
  content (gc headline) = first :: rest ->
  top_logprobs first = technology_alternatives ->
  printed (cell12 gc [headline] g)
  = [Text headline; Text newline]
    ++ [Text (esc ++ "[96mToken:" ++ esc ++ "[0m ")%string;
        Text "Technology";
        Text (", " ++ esc ++ "[93mlogprobs:" ++ esc ++ "[0m ")%string;
        Float (-3.1737043e-06);
        Text (", " ++ esc ++ "[95mlinear probability:" ++ esc
              ++ "[0m ")%string;
        Float 100; Text "%"; Text newline]
    ++ [Text (esc ++ "[96mToken:" ++ esc ++ "[0m ")%string;
        Text "Techn";
        Text (", " ++ esc ++ "[93mlogprobs:" ++ esc ++ "[0m ")%string;
        Float (-13.437503);
        Text (", " ++ esc ++ "[95mlinear probability:" ++ esc
              ++ "[0m ")%string;
        Float 0; Text "%"; Text newline]
    ++ [Text newline; Text newline].
Proof.
  intros Hc Ht.
  rewrite (cell12_one_headline gc headline g first rest Hc), Ht.
  unfold printed. cbn [snd].
  unfold technology_alternatives, alternative_lines, alternative_line.
  cbn [flat_map alt top_token top_logprob app].
  rewrite percent_techn, (percent_near_one (-3.1737043e-06)) by lra.
  reflexivity.
Qed.

End Classification.

(** * Further properties of the notebook's code *)

(** ** get_completion *)

Section GetCompletion.
Local Open Scope string_scope.

Lemma item_get_set_same {V : Type} (d : list (string * V)) k v :
  item_get (item_set d k v) k = Some v.
Proof.
  induction d as [|[k' v'] d IH]; cbn [item_set item_get].
  - rewrite String.eqb_refl. reflexivity.
  - destruct (String.eqb k' k) eqn:E; cbn [item_get].
    + rewrite String.eqb_refl. reflexivity.
    + rewrite E. exact IH.
Qed.

Lemma item_get_set_other {V : Type} (d : list (string * V)) k k' v :
  k' <> k -> item_get (item_set d k v) k' = item_get d k'.
Proof.
  intros Hne. induction d as [|[k0 v0] d IH]; cbn [item_set item_get].
  - destruct (String.eqb_spec k k'); [congruence|reflexivity].
  - destruct (String.eqb_spec k0 k) as [->|Hk]; cbn [item_get].
    + destruct (String.eqb_spec k k'); [congruence|reflexivity].
    + destruct (String.eqb k0 k'); [reflexivity|exact IH].
Qed.

Ltac distinct_keys :=
  repeat constructor; cbn [In];
  intuition discriminate.

(** X1: [get_completion] calls the service with exactly the seven entries
    model, messages, max_tokens, temperature, stop, logprobs and
    top_logprobs, each bound to its argument even when that is [None], and
    with an eighth entry functions exactly when [functions] is truthy; so
    an empty list of functions makes the same call as [None]. *)
Theorem get_completion_forwards_functions_when_truthy
    (create : list (string * pyvalue) -> ChatCompletion)
    (messages model max_tokens temperature stop functions logprobs
     top_logprobs : pyvalue) :
  let params :=
    get_completion_params messages model max_tokens temperature stop
      functions logprobs top_logprobs in
  get_completion create messages model max_tokens temperature stop
    functions logprobs top_logprobs = create params
  /\ item_get params "functions"
     = (if truthy functions then Some functions else None)
  /\ item_get params "model" = Some model
  /\ item_get params "messages" = Some messages
  /\ item_get params "max_tokens" = Some max_tokens
  /\ item_get params "temperature" = Some temperature
  /\ item_get params "stop" = Some stop
  /\ item_get params "logprobs" = Some logprobs
  /\ item_get params "top_logprobs" = Some top_logprobs
  /\ NoDup (map fst params)
  /\ List.length params = (if truthy functions then 8 else 7)%nat
  /\ get_completion create messages model max_tokens temperature stop
       (PyList []) logprobs top_logprobs
     = get_completion create messages model max_tokens temperature stop
         PyNone logprobs top_logprobs.
Proof.
  intros params. subst params. unfold get_completion, get_completion_params.
  destruct (truthy functions); cbn;
    repeat (split; [first [reflexivity | distinct_keys]|]); reflexivity.
Qed.

End GetCompletion.

(** ** Decoding token by token and as a whole *)

Section DecodingComposition.
Local Open Scope cell_scope.

Lemma decode_ints_ok ints s :
  decode_ints ints = Ok s <->
  forallb is_byte ints = true /\ Utf8.decode ints = Some s.
Proof.
  unfold decode_ints, py_bytes, py_decode_utf8.
  destruct (forallb is_byte ints).
  - destruct (Utf8.decode ints) as [s'|]; split.
    + intros H. injection H as <-. split; reflexivity.
    + intros [_ H]. injection H as <-. reflexivity.
    + discriminate.
    + intros [_ H]. discriminate.
  - split; [discriminate|]. intros [H _]. discriminate.
Qed.

Lemma utf8_decode_app a b sa sb :
  Utf8.decode a = Some sa -> Utf8.decode b = Some sb ->
  Utf8.decode (a ++ b) = Some (sa ++ sb).
Proof.
  intros Ha Hb.
  apply Utf8Facts.decode_some_iff in Ha. destruct Ha as [Fa Ea].
  apply Utf8Facts.decode_some_iff in Hb. destruct Hb as [Fb Eb].
  apply Utf8Facts.decode_some_iff. split.
  - apply Forall_app. split; assumption.
  - unfold Utf8.encode in *. rewrite flat_map_app, Ea, Eb. reflexivity.
Qed.

Lemma decode_each_then_all tokens texts :
  Forall2 (fun t s => decode_ints (bytes t) = Ok s) tokens texts ->
  forallb is_byte (List.concat (map bytes tokens)) = true
  /\ Utf8.decode (List.concat (map bytes tokens))
     = Some (List.concat texts).
Proof.
  induction 1 as [|t s tokens texts Hts _ IH]; [split; reflexivity|].
  apply decode_ints_ok in Hts. destruct Hts as [Hb Hd].
  destruct IH as [IHb IHd]. cbn [map List.concat]. split.
  - rewrite forallb_app, Hb, IHb. reflexivity.
  - apply utf8_decode_app; assumption.
Qed.

(** X6: when the bytes of every token decode on their own, as
    [highlight_text] decodes them, then the concatenation decodes too and
    [decodeText] returns the token texts put end to end; cell 25 binds
    [aggregated_text] to that text for every reply with these tokens. *)
Theorem decodeText_of_decodable_tokens
    (tokens : list ChatCompletionTokenLogprob) (texts : list pystr)
    (Heach : Forall2 (fun t s => decode_ints (bytes t) = Ok s)
               tokens texts) :
  decodeText tokens = Ok (List.concat texts)
  /\ (forall (g : Globals) (text : pystr),
        aggregated_text
          (globals_after
             ((cell23 {| content := tokens; message := text |} ;; cell25) g))
        = Some (List.concat texts)).
Proof.
  assert (D : decodeText tokens = Ok (List.concat texts)).
  { destruct (decode_each_then_all tokens texts Heach) as [Hb Hd].
    unfold decodeText, py_bytes, py_decode_utf8.
    rewrite aggregated_bytes_loop_concat, Hb, Hd. reflexivity. }
  split; [exact D|]. intros g text. apply cell25_binds_text, D.
Qed.

Lemma decodeText_of_decodable_tokens_witness :
  decodeText [tok "True" [84; 114; 117; 101]%Z (-0.77434313)%R]
  = Ok (List.concat [[84; 114; 117; 101]%Z]).
Proof.
  refine (proj1 (decodeText_of_decodable_tokens
                   [tok "True" [84; 114; 117; 101]%Z (-0.77434313)%R]
                   [[84; 114; 117; 101]%Z] _)).
  repeat constructor.
Defined.

Lemma utf8_decode_ascii ints :
  Forall (fun b => (0 <= b <= 127)%Z) ints -> Utf8.decode ints = Some ints.
Proof.
  induction 1 as [|b ints Hb _ IH]; [reflexivity|].
  rewrite Utf8Facts.decode_1 by exact Hb. rewrite IH. reflexivity.
Qed.

Lemma ascii_are_bytes ints :
  Forall (fun b => (0 <= b <= 127)%Z) ints -> forallb is_byte ints = true.
Proof.
  induction 1 as [|b ints Hb _ IH]; [reflexivity|].
  cbn [forallb]. rewrite IH, andb_true_r.
  apply Utf8Facts.in_range_true. lia.
Qed.

(** X7: when every byte of every token is below 128, [decodeText] returns
    the bytes themselves, in order, as code points; cell 25 binds
    [aggregated_text] to them for every reply with these tokens. *)
Theorem decodeText_ascii (tokens : list ChatCompletionTokenLogprob)
    (Hascii : Forall (fun b => (0 <= b <= 127)%Z)
                (List.concat (map bytes tokens))) :
  decodeText tokens = Ok (List.concat (map bytes tokens))
  /\ (forall (g : Globals) (text : pystr),
        aggregated_text
          (globals_after
             ((cell23 {| content := tokens; message := text |} ;; cell25) g))
        = Some (List.concat (map bytes tokens))).
Proof.
  assert (D : decodeText tokens = Ok (List.concat (map bytes tokens))).
  { unfold decodeText, py_bytes, py_decode_utf8.
    rewrite aggregated_bytes_loop_concat, (ascii_are_bytes _ Hascii),
      (utf8_decode_ascii _ Hascii).
    reflexivity. }
  split; [exact D|]. intros g text. apply cell25_binds_text, D.
Qed.

Lemma decodeText_ascii_witness :
  decodeText [tok "True" [84; 114; 117; 101]%Z (-0.77434313)%R]
  = Ok [84; 114; 117; 101]%Z.
Proof.
  refine (proj1 (decodeText_ascii
                   [tok "True" [84; 114; 117; 101]%Z (-0.77434313)%R] _)).
  cbn [map List.concat bytes tok app].
  repeat constructor; lia.
Defined.

End DecodingComposition.

(** ** What highlight_text prints and leaves *)

Section HighlightOutput.
Local Open Scope cell_scope.

Lemma highlight_loop_globals tokens :
  forall color_idx g, globals_after (highlight_loop tokens color_idx g) = g.
Proof.
  induction tokens as [|t ts IH]; intros color_idx g; [reflexivity|].
  cbn [highlight_loop]. rewrite globals_after_bind.
  destruct (py_bytes (bytes t)) as [b|e];
    cbn [lift outcome globals_after fst snd]; [|reflexivity].
  rewrite globals_after_bind.
  destruct (py_decode_utf8 b) as [s|e];
    cbn [lift outcome globals_after fst snd]; [|reflexivity].
  rewrite globals_after_bind.
  cbn [print_end_empty outcome globals_after fst snd]. apply IH.
Qed.

(** X8: [highlight_text] binds no global name: whatever the reply and
    whether it completes or raises, the kernel's globals are afterwards
    what they were before. *)
Theorem highlight_text_leaves_globals (api_response : ChatCompletion)
    (g : Globals) :
  globals_after (highlight_text api_response g) = g.
Proof.
  unfold highlight_text. rewrite globals_after_bind.
  pose proof (highlight_loop_globals (content api_response) 0%nat g) as Hg.
  destruct (outcome (highlight_loop (content api_response) 0%nat g));
    [|exact Hg].
  rewrite Hg, globals_after_bind. reflexivity.
Qed.

Lemma highlight_loop_output tokens texts :
  Forall2 (fun t s => decode_ints (bytes t) = Ok s) tokens texts ->
  forall k g,
    highlight_loop tokens (k mod 5) g = (Ok tt, g, highlighted k texts).
Proof.
  induction 1 as [|t s tokens texts Hts _ IH]; intros k g; [reflexivity|].
  cbn [highlight_loop]. unfold decode_ints in Hts.
  destruct (py_bytes (bytes t)) as [b|e]; [|discriminate Hts].
  erewrite bind_silent by reflexivity.
  erewrite bind_silent by (unfold lift; rewrite Hts; reflexivity).
  etransitivity.
  { eapply bind_output; [reflexivity|].
    change (List.length colors) with 5%nat.
    rewrite Nat.Div0.add_mod_idemp_l.
    replace (k + 1)%nat with (S k) by lia. apply IH. }
  reflexivity.
Qed.

(** X9: when every token decodes on its own, [highlight_text] completes
    and prints the token texts in order, the i-th (from 0) between the
    colour code [colors[i mod 5]] and the reset code, with no separator,
    then a line feed and the line "Total number of tokens: n" with the
    number of tokens of the reply. *)
Theorem highlight_text_output (api_response : ChatCompletion) (g : Globals)
    (texts : list pystr)
    (Heach : Forall2 (fun t s => decode_ints (bytes t) = Ok s)
               (content api_response) texts) :
  highlight_text api_response g
  = (Ok tt, g,
     highlighted 0 texts
     ++ [Text newline; Text "Total number of tokens: ";
         Int (Z.of_nat (List.length (content api_response)));
         Text newline]).
Proof.
  unfold highlight_text.
  etransitivity.
  { eapply bind_output;
      [exact (highlight_loop_output _ _ Heach 0%nat g)|].
    eapply bind_output; [reflexivity|]. reflexivity. }
  reflexivity.
Qed.

Lemma highlight_text_output_witness :
  highlight_text
    {| content := [tok "True" [84; 114; 117; 101]%Z (-0.77434313)%R];
       message := [84; 114; 117; 101]%Z |} fresh
  = (Ok tt, fresh,
     highlighted 0 [[84; 114; 117; 101]%Z]
     ++ [Text newline; Text "Total number of tokens: "; Int 1;
         Text newline]).
Proof.
  apply (highlight_text_output
           {| content := [tok "True" [84; 114; 117; 101]%Z (-0.77434313)%R];
              message := [84; 114; 117; 101]%Z |} fresh
           [[84; 114; 117; 101]%Z]).
  repeat constructor.
Defined.

End HighlightOutput.

(** ** Cell 25 run again, and how it fails *)

Section Cell25Edges.
Local Open Scope R_scope.
Local Open Scope cell_scope.

(** X10: running cell 25 a second time changes nothing: from the globals a
    first run leaves, the cell has the same outcome, prints the same and
    leaves the same globals. *)
Theorem cell25_rerun (g : Globals) :
  cell25 (globals_after (cell25 g)) = cell25 g.
Proof.
  destruct (API_RESPONSE g) as [r|] eqn:E.
  - pose proof (cell25_run g r E) as H1.
    destruct (decodeText (content r)) as [s|e] eqn:D.
    + destruct (pystr_eqb (message r) s) eqn:Q; rewrite H1;
        cbn [globals_after fst snd];
        erewrite cell25_run by exact E; rewrite D, Q; reflexivity.
    + rewrite H1. cbn [globals_after fst snd].
      erewrite cell25_run by exact E. rewrite D. reflexivity.
  - rewrite (cell25_unbound_response g E). cbn [globals_after fst snd].
    erewrite cell25_unbound_response by exact E. reflexivity.
Qed.

Lemma decodeText_value_error tokens :
  decodeText tokens = Raise ValueError <->
  forallb is_byte (List.concat (map bytes tokens)) = false.
Proof.
  unfold decodeText, py_bytes, py_decode_utf8.
  rewrite aggregated_bytes_loop_concat.
  destruct (forallb is_byte (List.concat (map bytes tokens))).
  - destruct (Utf8.decode (List.concat (map bytes tokens)));
      split; discriminate.
  - split; reflexivity.
Qed.

Lemma decodeText_raises tokens e :
  decodeText tokens = Raise e -> e = ValueError \/ e = UnicodeDecodeError.
Proof.
  unfold decodeText, py_bytes, py_decode_utf8.
  destruct (forallb is_byte (aggregated_bytes_loop tokens)).
  - destruct (Utf8.decode (aggregated_bytes_loop tokens));
      intros H; inversion H. right. reflexivity.
  - intros H. inversion H. left. reflexivity.
Qed.

(** X11: cell 25 raises [NameError] exactly when [API_RESPONSE] is
    unbound, and [ValueError] exactly when the reply has a fragment with an
    int outside [range(0, 256)]; in the latter case it has printed nothing
    and has bound [message_content] but not [aggregated_text].  It never
    raises [IndexError]: a reply without tokens is accepted. *)
Theorem cell25_failures (g : Globals) :
  (outcome (cell25 g) = Raise NameError <-> API_RESPONSE g = None)
  /\ (forall r, API_RESPONSE g = Some r ->
        (outcome (cell25 g) = Raise ValueError <->
         forallb is_byte (List.concat (map bytes (content r))) = false)
        /\ (outcome (cell25 g) = Raise ValueError ->
            printed (cell25 g) = []
            /\ message_content (globals_after (cell25 g))
               = Some (message r)
            /\ aggregated_text (globals_after (cell25 g))
               = aggregated_text g))
  /\ outcome (cell25 g) <> Raise IndexError.
Proof.
  destruct (API_RESPONSE g) as [r|] eqn:E.
  - rewrite (cell25_run g r E).
    pose proof (decodeText_value_error (content r)) as HV.
    pose proof (decodeText_raises (content r)) as HR.
    destruct (decodeText (content r)) as [s|e].
    + assert (Hno : forall x : exn,
                 outcome (if pystr_eqb (message r) s
                          then (Ok tt,
                                set_aggregated_text s (before_decoding r g),
                                report r s)
                          else (Raise AssertionError,
                                set_aggregated_text s (before_decoding r g),
                                [Str s; Text newline]))
                 = Raise x -> x = AssertionError).
      { intros x. destruct (pystr_eqb (message r) s); cbn [outcome fst];
          intros H; inversion H. reflexivity. }
      split; [|split].
      * split; [|discriminate]. intros H. apply Hno in H. discriminate.
      * intros r' Hr'. injection Hr' as <-. split.
        -- split; intros H.
           ++ apply Hno in H. discriminate.
           ++ apply HV in H. discriminate.
        -- intros H. apply Hno in H. discriminate.
      * intros H. apply Hno in H. discriminate.
    + cbn [outcome printed globals_after fst snd].
      destruct (HR e eq_refl) as [-> | ->].
      * split; [split; discriminate|]. split; [|discriminate].
        intros r' Hr'. injection Hr' as <-. split.
        -- split; intros _; [apply HV|]; reflexivity.
        -- intros _. repeat split.
      * split; [split; discriminate|]. split; [|discriminate].
        intros r' Hr'. injection Hr' as <-. split.
        -- split; intros H; [discriminate|].
           apply HV in H. discriminate.
        -- discriminate.
  - rewrite (cell25_unbound_response g E). cbn [outcome fst].
    split; [split; reflexivity|]. split; [|discriminate].
    intros r Hr. discriminate.
Qed.

End Cell25Edges.

(** ** Cell 34: decoding inside the loop *)

Section Cell34.
Local Open Scope R_scope.
Local Open Scope cell_scope.

Local Abbreviation prefix_body :=
  (fun token : ChatCompletionTokenLogprob =>
     ab <- read aggregated_bytes ;;
     write (set_aggregated_bytes (ab ++ bytes token)) ;;
     jl <- read joint_logprob ;;
     write (set_joint_logprob (jl + logprob token)) ;;
     r <- read API_RESPONSE ;;
     write (set_message_content (message r)) ;;
     ab <- read aggregated_bytes ;;
     b <- lift (py_bytes ab) ;;
     s <- lift (py_decode_utf8 b) ;;
     write (set_aggregated_text s) ;;
     s <- read aggregated_text ;;
     print [Str s]) (only parsing).

(** One turn of the loop of cell 34. *)
Lemma prefix_body_run t g ab jl r :
  aggregated_bytes g = Some ab -> joint_logprob g = Some jl ->
  API_RESPONSE g = Some r ->
  prefix_body t g
  = match decode_ints (ab ++ bytes t) with
    | Ok s =>
      (Ok tt,
       set_aggregated_text s
         (set_message_content (message r)
            (accumulated (ab ++ bytes t) (jl + logprob t) g)),
       [Str s; Text newline])
    | Raise e =>
      (Raise e,
       set_message_content (message r)
         (accumulated (ab ++ bytes t) (jl + logprob t) g),
       [])
    end.
Proof.
  intros Hab Hjl Hr. cbv beta.
  erewrite bind_silent by (apply read_bound, Hab).
  erewrite bind_silent by reflexivity.
  erewrite bind_silent by (apply read_bound, Hjl).
  erewrite bind_silent by reflexivity.
  erewrite bind_silent by (apply read_bound, Hr).
  erewrite bind_silent by reflexivity.
  erewrite bind_silent by reflexivity.
  unfold decode_ints.
  destruct (py_bytes (ab ++ bytes t)) as [b|e].
  2:{ erewrite bind_raise by reflexivity. reflexivity. }
  erewrite bind_silent by reflexivity.
  destruct (py_decode_utf8 b) as [s|e].
  2:{ erewrite bind_raise by reflexivity. reflexivity. }
  erewrite bind_silent by reflexivity.
  erewrite bind_silent by reflexivity.
  erewrite bind_silent by reflexivity.
  reflexivity.
Qed.

(** The loop of cell 34, against [decode_prefixes]. *)
Lemma prefix_loop_run tokens :
  forall g ab jl r,
    aggregated_bytes g = Some ab -> joint_logprob g = Some jl ->
    API_RESPONSE g = Some r ->
    match decode_prefixes ab tokens with
    | Ok texts =>
      outcome (for_each tokens prefix_body g) = Ok tt
      /\ printed (for_each tokens prefix_body g)
         = flat_map (fun s => [Str s; Text newline]) texts
      /\ joint_logprob (globals_after (for_each tokens prefix_body g))
         = Some (fold_left (fun a t => a + logprob t) tokens jl)
      /\ (tokens = [] -> globals_after (for_each tokens prefix_body g) = g)
      /\ (tokens <> [] ->
          message_content (globals_after (for_each tokens prefix_body g))
          = Some (message r)
          /\ exists s,
               aggregated_text
                 (globals_after (for_each tokens prefix_body g)) = Some s
               /\ decode_ints
                    (fold_left (fun a t => a ++ bytes t) tokens ab) = Ok s)
    | Raise e => outcome (for_each tokens prefix_body g) = Raise e
    end.
Proof.
  induction tokens as [|t ts IH]; intros g ab jl r Hab Hjl Hr.
  - cbn [decode_prefixes for_each fold_left].
    split; [reflexivity|]. split; [reflexivity|]. split; [exact Hjl|].
    split; [reflexivity|]. intros H. contradiction.
  - cbn [decode_prefixes for_each fold_left].
    pose proof (prefix_body_run t g ab jl r Hab Hjl Hr) as Hb.
    destruct (decode_ints (ab ++ bytes t)) as [s|e] eqn:Ed.
    2:{ rewrite (bind_raise _ _ _ _ _ _ Hb). reflexivity. }
    rewrite (bind_parts _ _ _ _ _ _ Hb).
    cbn [outcome printed globals_after fst snd].
    specialize (IH (set_aggregated_text s
                      (set_message_content (message r)
                         (accumulated (ab ++ bytes t) (jl + logprob t) g)))
                   (ab ++ bytes t) (jl + logprob t) r eq_refl eq_refl Hr).
    destruct (decode_prefixes (ab ++ bytes t) ts) as [texts|e];
      [|exact IH].
    destruct IH as (Ho & Hp & Hj & Hnil & Hcons).
    split; [exact Ho|]. split; [rewrite Hp; reflexivity|].
    split; [exact Hj|]. split; [discriminate|]. intros _.
    destruct ts as [|t' ts'].
    + rewrite (Hnil eq_refl). split; [reflexivity|].
      exists s. split; [reflexivity|exact Ed].
    + apply Hcons. discriminate.
Qed.

Lemma decode_ints_decodeText tokens :
  decode_ints (fold_left (fun a t => a ++ bytes t) tokens [])
  = decodeText tokens.
Proof. reflexivity. Qed.

(** X12: cell 34 is stricter than cell 25.  On a reply that has tokens,
    whenever cell 34 completes, the bytes of the reply decode to the
    message text and cell 25 completes as well. *)
Theorem cell34_completes_only_if_cell25 (g : Globals) (r : ChatCompletion)
    (Hresponse : API_RESPONSE g = Some r) (Htokens : content r <> [])
    (Hcompletes : outcome (cell34 g) = Ok tt) :
  decodeText (content r) = Ok (message r)
  /\ outcome (cell25 g) = Ok tt.
Proof.
  assert (Hd : decodeText (content r) = Ok (message r)).
  { unfold cell34 in Hcompletes.
    erewrite bind_silent in Hcompletes by reflexivity.
    erewrite bind_silent in Hcompletes by reflexivity.
    erewrite bind_silent in Hcompletes by (apply read_bound, Hresponse).
    rewrite outcome_bind in Hcompletes.
    pose proof (prefix_loop_run (content r)
                  (set_joint_logprob 0 (set_aggregated_bytes [] g))
                  [] 0 r eq_refl eq_refl Hresponse) as L.
    destruct (decode_prefixes [] (content r)) as [texts|e].
    - destruct L as (Ho & _ & _ & _ & Hcons).
      destruct (Hcons Htokens) as (Hmc & s & Hat & Hs).
      rewrite Ho in Hcompletes.
      rewrite outcome_bind, (read_bound _ _ _ Hmc) in Hcompletes.
      cbn [outcome globals_after fst snd] in Hcompletes.
      rewrite outcome_bind, (read_bound _ _ _ Hat) in Hcompletes.
      cbn [outcome globals_after fst snd] in Hcompletes.
      rewrite outcome_bind in Hcompletes.
      rewrite decode_ints_decodeText in Hs. rewrite Hs. f_equal.
      destruct (pystr_eqb (message r) s) eqn:Q.
      + apply pystr_eqb_true in Q. symmetry. exact Q.
      + cbn [assert raise outcome fst] in Hcompletes.
        discriminate Hcompletes.
    - rewrite L in Hcompletes. discriminate Hcompletes. }
  split; [exact Hd|].
  rewrite (cell25_run g r Hresponse), Hd.
  assert (Q : pystr_eqb (message r) (message r) = true)
    by (apply pystr_eqb_true; reflexivity).
  rewrite Q. reflexivity.
Qed.

Lemma ascii_true_response_completes :
  outcome
    (cell34
       (set_API_RESPONSE
          {| content := [tok "True" [84; 114; 117; 101]%Z (-0.77434313)];
             message := [84; 114; 117; 101]%Z |} fresh)) = Ok tt.
Proof. reflexivity. Qed.

Lemma cell34_completes_only_if_cell25_witness :
  outcome
    (cell25
       (set_API_RESPONSE
          {| content := [tok "True" [84; 114; 117; 101]%Z (-0.77434313)];
             message := [84; 114; 117; 101]%Z |} fresh)) = Ok tt.
Proof.
  refine (proj2 (cell34_completes_only_if_cell25
                   (set_API_RESPONSE
                      {| content :=
                           [tok "True" [84; 114; 117; 101]%Z (-0.77434313)];
                         message := [84; 114; 117; 101]%Z |} fresh)
                   _ eq_refl _ ascii_true_response_completes)).
  discriminate.
Defined.

Lemma decode_prefixes_invalid tokens :
  forall ab,
    forallb is_byte ab = true ->
    Forall (fun t => forallb is_byte (bytes t) = true) tokens ->
    (exists n, (0 < n <= List.length tokens)%nat
               /\ ~ Utf8.valid
                      (ab ++ List.concat (map bytes (firstn n tokens)))) ->
    decode_prefixes ab tokens = Raise UnicodeDecodeError.
Proof.
  induction tokens as [|t ts IH]; intros ab Hab Hbytes (n & Hn & Hinv).
  - cbn [List.length] in Hn. lia.
  - inversion Hbytes as [|? ? Hbt Hbts]; subst.
    cbn [decode_prefixes]. unfold decode_ints, py_bytes, py_decode_utf8.
    assert (Hb : forallb is_byte (ab ++ bytes t) = true)
      by (rewrite forallb_app, Hab, Hbt; reflexivity).
    rewrite Hb.
    destruct (Utf8.decode (ab ++ bytes t)) as [s|] eqn:Ed; [|reflexivity].
    destruct n as [|n]; [lia|].
    destruct n as [|n].
    + exfalso. apply Hinv. cbn [firstn map List.concat].
      rewrite app_nil_r. exists s. apply Utf8Facts.decode_sound, Ed.
    + rewrite (IH (ab ++ bytes t) Hb Hbts); [reflexivity|].
      exists (S n). split; [cbn [List.length] in Hn; lia|].
      rewrite firstn_cons in Hinv. cbn [map List.concat] in Hinv.
      rewrite app_assoc in Hinv. exact Hinv.
Qed.

(** X13: cell 34 decodes the bytes aggregated so far after every token.
    For a reply with byte-valued fragments it raises [UnicodeDecodeError]
    as soon as the fragments of some first [n] tokens, put end to end, are
    not valid UTF-8, even when the bytes of the whole reply are. *)
Theorem cell34_decodes_every_prefix (g : Globals) (r : ChatCompletion)
    (n : nat)
    (Hresponse : API_RESPONSE g = Some r)
    (Hbytes : Forall (fun t => forallb is_byte (bytes t) = true)
                (content r))
    (Hn : (0 < n <= List.length (content r))%nat)
    (Hinvalid : ~ Utf8.valid
                    (List.concat (map bytes (firstn n (content r))))) :
  outcome (cell34 g) = Raise UnicodeDecodeError.
Proof.
  unfold cell34.
  erewrite bind_silent by reflexivity.
  erewrite bind_silent by reflexivity.
  erewrite bind_silent by (apply read_bound, Hresponse).
  rewrite outcome_bind.
  pose proof (prefix_loop_run (content r)
                (set_joint_logprob 0 (set_aggregated_bytes [] g))
                [] 0 r eq_refl eq_refl Hresponse) as L.
  rewrite (decode_prefixes_invalid (content r) [] eq_refl Hbytes) in L.
  - rewrite L. reflexivity.
  - exists n. split; [exact Hn|exact Hinvalid].
Qed.

Lemma cell34_decodes_every_prefix_witness :
  outcome (cell34 (set_API_RESPONSE emoji_response fresh))
  = Raise UnicodeDecodeError.
Proof.
  apply (cell34_decodes_every_prefix
           (set_API_RESPONSE emoji_response fresh) emoji_response 1
           eq_refl).
  - repeat constructor.
  - cbn [content emoji_response emoji_tokens List.length]. lia.
  - exact lead_bytes_invalid.
Defined.

(** X14: on a reply without tokens cell 34 never binds [message_content]
    or [aggregated_text], so its [assert] reads what earlier cells left:
    it raises [NameError] when either name is unbound, and otherwise
    compares the two leftover values, completing with the leftover text in
    its report when they are equal and raising [AssertionError] when they
    differ. *)
Theorem cell34_without_tokens (g : Globals) (r : ChatCompletion)
    (Hresponse : API_RESPONSE g = Some r) (Hempty : content r = []) :
  (message_content g = None -> outcome (cell34 g) = Raise NameError)
  /\ (aggregated_text g = None -> outcome (cell34 g) = Raise NameError)
  /\ (forall mc s,
        message_content g = Some mc -> aggregated_text g = Some s ->
        outcome (cell34 g)
        = (if pystr_eqb mc s then Ok tt else Raise AssertionError)
        /\ (mc = s ->
            printed (cell34 g)
            = [Text "text = "; Str s; Text newline;
               Text "joint probability = "; Float (exp 0); Text newline])).
Proof.
  unfold cell34.
  erewrite bind_silent by reflexivity.
  erewrite bind_silent by reflexivity.
  erewrite bind_silent by (apply read_bound, Hresponse).
  rewrite Hempty. cbn [for_each].
  erewrite bind_silent by reflexivity.
  split; [|split].
  - intros Hmc. erewrite bind_raise; [reflexivity|].
    apply read_unbound. exact Hmc.
  - intros Hat. destruct (message_content g) as [mc|] eqn:Hmc.
    + erewrite bind_silent by (apply read_bound; exact Hmc).
      erewrite bind_raise; [reflexivity|].
      apply read_unbound. exact Hat.
    + erewrite bind_raise; [reflexivity|].
      apply read_unbound. exact Hmc.
  - intros mc s Hmc Hat.
    erewrite bind_silent by (apply read_bound; exact Hmc).
    erewrite bind_silent by (apply read_bound; exact Hat).
    destruct (pystr_eqb mc s) eqn:Q.
    + erewrite bind_silent by reflexivity.
      erewrite bind_silent by (apply read_bound; exact Hat).
      match goal with
      | |- outcome ?X = _ /\ _ =>
        assert (E : X = (Ok tt,
                         set_joint_logprob 0 (set_aggregated_bytes [] g),
                         [Text "text = "; Str s; Text newline;
                          Text "joint probability = "; Float (exp 0);
                          Text newline]))
      end.
      { etransitivity.
        { eapply bind_output; [reflexivity|].
          erewrite bind_silent by reflexivity. reflexivity. }
        reflexivity. }
      rewrite E. split; [reflexivity|]. intros _. reflexivity.
    + erewrite bind_raise by reflexivity.
      split; [reflexivity|]. intros ->.
      assert (pystr_eqb s s = true) by (apply pystr_eqb_true; reflexivity).
      congruence.
Qed.

Lemma cell34_without_tokens_witness :
  outcome (cell34 (set_API_RESPONSE empty_response fresh)) = Raise NameError.
Proof.
  exact (proj1 (cell34_without_tokens
                  (set_API_RESPONSE empty_response fresh) empty_response
                  eq_refl eq_refl) eq_refl).
Defined.

End Cell34.

(** ** The classification report and the cells that follow it *)

Section ClassificationRuns.
Local Open Scope cell_scope.

Local Abbreviation headline_body gc :=
  (fun headline : string =>
     print [Text headline] ;;
     write (set_API_RESPONSE (gc headline)) ;;
     r <- read API_RESPONSE ;;
     first <- index0 (content r) ;;
     for_each (top_logprobs first) (fun logprob =>
       print (alternative_line "Token:" logprob)) ;;
     print [Text newline]) (only parsing).

(** One headline of cell 12. *)
Lemma headline_body_run gc h g :
  headline_body gc h g
  = match content (gc h) with
    | [] => (Raise IndexError, set_API_RESPONSE (gc h) g,
             [Text h; Text newline])
    | _ :: _ => (Ok tt, set_API_RESPONSE (gc h) g, headline_report gc h)
    end.
Proof.
  cbv beta. unfold headline_report, first_alternatives.
  destruct (content (gc h)) as [|first rest] eqn:Ec.
  - etransitivity.
    { eapply bind_output; [reflexivity|].
      erewrite bind_silent by reflexivity.
      erewrite bind_silent by reflexivity.
      cbv beta. rewrite Ec.
      eapply bind_raise. reflexivity. }
    reflexivity.
  - etransitivity.
    { eapply bind_output; [reflexivity|].
      erewrite bind_silent by reflexivity.
      erewrite bind_silent by reflexivity.
      cbv beta. rewrite Ec.
      erewrite bind_silent by reflexivity.
      eapply bind_output; [apply report_alternatives|].
      reflexivity. }
    cbn [app]. reflexivity.
Qed.

Lemma cell12_completes gc hs :
  all_have_tokens gc hs = true ->
  forall g,
    cell12 gc hs g
    = (Ok tt, after_requests gc hs g, flat_map (headline_report gc) hs).
Proof.
  unfold cell12, after_requests.
  induction hs as [|h hs IH]; intros Hall g; [reflexivity|].
  cbn [all_have_tokens forallb] in Hall.
  apply andb_true_iff in Hall. destruct Hall as [Hh Hall].
  cbn [for_each fold_left flat_map].
  pose proof (headline_body_run gc h g) as Hb.
  destruct (content (gc h)) as [|first rest]; [discriminate Hh|].
  rewrite (bind_parts _ _ _ _ _ _ Hb), (IH Hall). reflexivity.
Qed.




Lemma after_requests_last gc hs h g :
  API_RESPONSE (after_requests gc (hs ++ [h]) g) = Some (gc h).
Proof.
  unfold after_requests. rewrite fold_left_app. reflexivity.
Qed.

Lemma all_have_tokens_app gc l1 l2 :
  all_have_tokens gc (l1 ++ l2)
  = all_have_tokens gc l1 && all_have_tokens gc l2.
Proof. unfold all_have_tokens. apply forallb_app. Qed.

(** X16: cell 20 shows the first token of whatever reply is bound to
    [API_RESPONSE]: [NameError] when none is, [IndexError] when the reply
    has no token.  Run after cell 12 has completed, it shows the first
    token of the reply to the last headline. *)
Theorem cell20_shows_first_token_of_last_reply
    (get_completion : string -> ChatCompletion) (headlines : list string)
    (last_headline : string) (g : Globals)
    (first : ChatCompletionTokenLogprob)
    (rest : list ChatCompletionTokenLogprob)
    (Hall : all_have_tokens get_completion headlines = true)
    (Hlast : content (get_completion last_headline) = first :: rest) :
  outcome
    (cell20
       (globals_after
          (cell12 get_completion (headlines ++ [last_headline]) g)))
  = Ok (token first)
  /\ (forall g', API_RESPONSE g' = None ->
        outcome (cell20 g') = Raise NameError)
  /\ (forall g' r, API_RESPONSE g' = Some r -> content r = [] ->
        outcome (cell20 g') = Raise IndexError).
Proof.
  split; [|split].
  - assert (Hall' : all_have_tokens get_completion
                      (headlines ++ [last_headline]) = true).
    { rewrite all_have_tokens_app, Hall.
      cbn [all_have_tokens forallb]. rewrite Hlast. reflexivity. }
    rewrite (cell12_completes _ _ Hall'). cbn [globals_after fst snd].
    unfold cell20.
    erewrite bind_silent
      by (apply read_bound, after_requests_last).
    rewrite Hlast. reflexivity.
  - intros g' Hg'. unfold cell20.
    erewrite bind_raise by (apply read_unbound, Hg'). reflexivity.
  - intros g' r Hg' Hr. unfold cell20.
    erewrite bind_silent by (apply read_bound, Hg').
    rewrite Hr. reflexivity.
Qed.

Lemma cell20_shows_first_token_of_last_reply_witness :
  outcome
    (cell20
       (globals_after
          (cell12 (fun _ => emoji_response) ([] ++ ["h"%string]) fresh)))
  = Ok "\xf0\x9f"%string.
Proof.
  exact (proj1 (cell20_shows_first_token_of_last_reply
                  (fun _ => emoji_response) [] "h"%string fresh
                  _ _ eq_refl eq_refl)).
Defined.

End ClassificationRuns.

(** ** The suggestions of cell 30 *)

Section Suggestions.
Local Open Scope R_scope.
Local Open Scope cell_scope.

Lemma dict_set_item_set (d : dict) k v : dict_set d k v = item_set d k v.
Proof.
  induction d as [|[k' v'] d IH]; cbn [dict_set item_set]; [reflexivity|].
  rewrite IH. reflexivity.
Qed.

Lemma suggestions_app d k alts1 alts2 :
  suggestions d k (alts1 ++ alts2)
  = suggestions (suggestions d k alts1) k alts2.
Proof. unfold suggestions. apply fold_left_app. Qed.

Lemma suggestions_none d k alts :
  some_above_095 alts = false -> suggestions d k alts = d.
Proof.
  revert d. induction alts as [|a alts IH]; intros d H; [reflexivity|].
  cbn [some_above_095 existsb] in H. apply orb_false_iff in H.
  destruct H as [Ha Halts].
  unfold suggestions. cbn [fold_left]. rewrite Ha. apply IH, Halts.
Qed.

Lemma suggestions_other_key d k k' alts :
  k' <> k -> item_get (suggestions d k alts) k' = item_get d k'.
Proof.
  intros Hne. revert d.
  induction alts as [|a alts IH]; intros d; [reflexivity|].
  unfold suggestions. cbn [fold_left].
  destruct (meetsThreshold (top_logprob a) 0.95).
  - fold (suggestions (dict_set d k (top_token a)) k alts).
    rewrite IH, dict_set_item_set. apply item_get_set_other, Hne.
  - apply IH.
Qed.

(** X18: what the inner loop of cell 30 records under a sentence is the
    token of the last alternative whose linear probability is above 0.95:
    a later such alternative overwrites an earlier one.  The entries of
    the other sentences are untouched, and when no alternative is above the
    threshold the dict is left as it was.  [suggestions] is the dict the
    loop leaves when the names are bound. *)
Theorem suggestions_last_wins (d : dict) (k : string)
    (alts : list TopLogprob) :
  (forall k', k' <> k ->
     item_get (suggestions d k alts) k' = item_get d k')
  /\ (some_above_095 alts = false -> suggestions d k alts = d)
  /\ (forall pre a post,
        alts = pre ++ a :: post ->
        meetsThreshold (top_logprob a) 0.95 = true ->
        some_above_095 post = false ->
        item_get (suggestions d k alts) k = Some (top_token a))
  /\ (forall g : Globals,
        high_prob_completions g = Some d -> sentence g = Some k ->
        outcome (for_each alts suggest g) = Ok tt
        /\ high_prob_completions (globals_after (for_each alts suggest g))
           = Some (suggestions d k alts)).
Proof.
  split; [|split; [|split]].
  - intros k' Hne. apply suggestions_other_key, Hne.
  - apply suggestions_none.
  - intros pre a post -> Ha Hpost.
    rewrite suggestions_app.
    change (a :: post) with ([a] ++ post). rewrite suggestions_app.
    rewrite (suggestions_none _ k post Hpost).
    unfold suggestions at 1. cbn [fold_left]. rewrite Ha.
    rewrite dict_set_item_set. apply item_get_set_same.
  - intros g Hd Hk.
    destruct (suggestions_bound alts g d k Hd Hk) as (Ho & Hs & _).
    split; assumption.
Qed.

Lemma recorded_other_key gc sentences k :
  ~ In k sentences ->
  forall d,
    item_get
      (fold_left (fun d s => suggestions d s (first_alternatives gc s))
         sentences d) k
    = item_get d k.
Proof.
  induction sentences as [|s ss IH]; intros Hk d; [reflexivity|].
  cbn [fold_left]. rewrite IH.
  - apply suggestions_other_key. intros ->. apply Hk. left. reflexivity.
  - intros Hin. apply Hk. right. exact Hin.
Qed.

(** X19: with [high_prob_completions] bound to a dict and a position 0 in
    every reply, cell 30 completes, and the dict it leaves is the one
    obtained by going through the sentences in order and recording for each
    its alternatives above the threshold; an entry whose key is not one of
    the sentences is left as it was. *)
Theorem cell30_records_when_bound
    (get_completion : string -> ChatCompletion) (sentences : list string)
    (g : Globals) (d : dict)
    (Hbound : high_prob_completions g = Some d)
    (Hcontent : forall s, In s sentences ->
                          content (get_completion s) <> []) :
  outcome (cell30 get_completion sentences g) = Ok tt
  /\ high_prob_completions
       (globals_after (cell30 get_completion sentences g))
     = Some (fold_left
               (fun d s =>
                  suggestions d s (first_alternatives get_completion s))
               sentences d)
  /\ (forall k d',
        ~ In k sentences ->
        high_prob_completions
          (globals_after (cell30 get_completion sentences g)) = Some d' ->
        item_get d' k = item_get d k).
Proof.
  destruct (cell30_bound get_completion sentences g d Hbound Hcontent)
    as [Ho Hd].
  split; [exact Ho|]. split; [exact Hd|].
  intros k d' Hk Hd'. rewrite Hd in Hd'. injection Hd' as <-.
  apply recorded_other_key, Hk.
Qed.

Lemma cell30_records_when_bound_witness :
  outcome
    (cell30 recorded_autocomplete sentence_list
       (set_high_prob_completions [] fresh)) = Ok tt.
Proof.
  exact (proj1 (cell30_records_when_bound recorded_autocomplete
                  sentence_list (set_high_prob_completions [] fresh) []
                  eq_refl recorded_autocomplete_nonempty)).
Defined.

(** X20: with [high_prob_completions] unbound, cell 30 completes exactly
    when every reply has a position 0 and none of the alternatives there
    has a linear probability above 0.95. *)
Theorem cell30_completes_iff_nothing_to_suggest
    (get_completion : string -> ChatCompletion) (sentences : list string)
    (g : Globals) (Hunbound : high_prob_completions g = None) :
  outcome (cell30 get_completion sentences g) = Ok tt
  <-> (forall s, In s sentences ->
         content (get_completion s) <> []
         /\ some_above_095 (first_alternatives get_completion s) = false).
Proof.
  unfold cell30. revert g Hunbound.
  induction sentences as [|s0 ss IH]; intros g Hg.
  - split; [intros _ s []|reflexivity].
  - cbn [for_each]. rewrite outcome_bind.
    rewrite (complete_sentence_unbound get_completion s0 g Hg).
    unfold first_alternatives in *.
    destruct (content (get_completion s0)) as [|first rest] eqn:Ec.
    + split; [discriminate|]. intros H.
      destruct (H s0 (or_introl eq_refl)) as [Hne _].
      rewrite Ec in Hne. contradiction.
    + destruct (some_above_095 (top_logprobs first)) eqn:E0.
      * split; [discriminate|]. intros H.
        destruct (H s0 (or_introl eq_refl)) as [_ Hno].
        rewrite Ec in Hno. congruence.
      * rewrite (IH _ (keeps_complete_sentence get_completion s0 g Hg)).
        split.
        -- intros H s [<-|Hs].
           ++ rewrite Ec. split; [discriminate|exact E0].
           ++ apply H, Hs.
        -- intros H s Hs. apply H. right. exact Hs.
Qed.

Lemma my_alone_nothing_to_suggest :
  forall s, In s ["My"%string] ->
    content (recorded_autocomplete s) <> []
    /\ some_above_095 (first_alternatives recorded_autocomplete s) = false.
Proof.
  intros s [<-|[]]. split; [discriminate|].
  change (first_alternatives recorded_autocomplete "My")
    with [alt "favorite" (-0.18245785); alt "dog" (-2.397172);
          alt "ap" (-3.8732424)].
  unfold some_above_095, alt. cbn [existsb top_logprob].
  rewrite !meets_095_low by lra. reflexivity.
Qed.

Lemma cell30_completes_iff_nothing_to_suggest_witness :
  outcome (cell30 recorded_autocomplete ["My"%string] fresh) = Ok tt.
Proof.
  exact (proj2 (cell30_completes_iff_nothing_to_suggest
                  recorded_autocomplete ["My"%string] fresh eq_refl)
           my_alone_nothing_to_suggest).
Defined.







End Suggestions.

(** ** The loops over the alternatives *)

Section AlternativeLoops.
Local Open Scope R_scope.
Local Open Scope cell_scope.

(** C5, as amended: the notebook selects no top alternative and takes no
    maximum.  For every reply with a position 0, cell 12 completes and
    prints every alternative of that position, one line each in the order
    of the reply; cell 30, with [high_prob_completions] bound, completes
    and records under the sentence the token of the last alternative whose
    linear probability exceeds 0.95, and nothing when no alternative does.
    For Technology (-3.1737043e-06) and Techn (-13.437503) cell 12 prints
    Technology with 100.0 and then Techn with 0.0. *)
Theorem alternatives_reported_in_reply_order
    (get_completion : string -> ChatCompletion) (input : string)
    (g : Globals) (first : ChatCompletionTokenLogprob)
    (rest : list ChatCompletionTokenLogprob)
    (Hcontent : content (get_completion input) = first :: rest) :
  cell12 get_completion [input] g
  = (Ok tt, set_API_RESPONSE (get_completion input) g,
     [Text input; Text newline]
     ++ alternative_lines "Token:" (top_logprobs first)
     ++ [Text newline; Text newline])
  /\ (forall d,
        high_prob_completions g = Some d ->
        outcome (cell30 get_completion [input] g) = Ok tt
        /\ high_prob_completions
             (globals_after (cell30 get_completion [input] g))
           = Some (suggestions d input (top_logprobs first)))
  /\ (forall d pre a post,
        top_logprobs first = pre ++ a :: post ->
        meetsThreshold (top_logprob a) 0.95 = true ->
        some_above_095 post = false ->
        item_get (suggestions d input (top_logprobs first)) input
        = Some (top_token a))
  /\ (forall d,
        some_above_095 (top_logprobs first) = false ->
        suggestions d input (top_logprobs first) = d)
  /\ (top_logprobs first = technology_alternatives ->
      printed (cell12 get_completion [input] g)
      = [Text input; Text newline]
        ++ [Text (esc ++ "[96mToken:" ++ esc ++ "[0m ")%string;
            Text "Technology";
            Text (", " ++ esc ++ "[93mlogprobs:" ++ esc ++ "[0m ")%string;
            Float (-3.1737043e-06);
            Text (", " ++ esc ++ "[95mlinear probability:" ++ esc
                  ++ "[0m ")%string;
            Float 100; Text "%"; Text newline]
        ++ [Text (esc ++ "[96mToken:" ++ esc ++ "[0m ")%string;
            Text "Techn";
            Text (", " ++ esc ++ "[93mlogprobs:" ++ esc ++ "[0m ")%string;
            Float (-13.437503);
            Text (", " ++ esc ++ "[95mlinear probability:" ++ esc
                  ++ "[0m ")%string;
            Float 0; Text "%"; Text newline]
        ++ [Text newline; Text newline]).
Proof.
  split; [|split; [|split; [|split]]].
  - exact (cell12_one_headline _ _ g first rest Hcontent).
  - intros d Hd.
    assert (Hne : forall s, In s [input] -> content (get_completion s) <> []).
    { intros s [<-|[]]. rewrite Hcontent. discriminate. }
    destruct (cell30_bound get_completion [input] g d Hd Hne) as [Ho Hs].
    split; [exact Ho|]. rewrite Hs. cbn [fold_left].
    unfold first_alternatives. rewrite Hcontent. reflexivity.
  - intros d pre a post -> Ha Hpost.
    rewrite suggestions_app.
    change (a :: post) with ([a] ++ post). rewrite suggestions_app.
    rewrite (suggestions_none _ input post Hpost).
    unfold suggestions at 1. cbn [fold_left]. rewrite Ha.
    rewrite dict_set_item_set. apply item_get_set_same.
  - intros d. apply suggestions_none.
  - intros Halts. exact (cell12_technology _ _ g first rest Hcontent Halts).
Qed.

Lemma alternatives_reported_in_reply_order_witness :
  cell12 (fun _ => technology_response) ["Technology headline"%string] fresh
  = (Ok tt, set_API_RESPONSE technology_response fresh,
     [Text "Technology headline"; Text newline]
     ++ alternative_lines "Token:" technology_alternatives
     ++ [Text newline; Text newline]).
Proof.
  exact (proj1 (alternatives_reported_in_reply_order
                  (fun _ => technology_response) "Technology headline"
                  fresh _ [] eq_refl)).
Defined.

(** C5, as stated, fails on both cells.  For the reply with the
    alternatives Technology (-3.1737043e-06) and Techn (-13.437503) cell 12
    prints both of them, not the one with the greatest logprob alone; and
    for the recorded reply to "My", whose greatest alternative is favorite
    (-0.18245785), cell 30 leaves nothing under the sentence. *)
Lemma loops_take_no_maximum :
  printed
    (cell12 (fun _ => technology_response) ["Technology headline"%string]
       fresh)
  = [Text "Technology headline"; Text newline]
    ++ alternative_lines "Token:" technology_alternatives
    ++ [Text newline; Text newline]
  /\ high_prob_completions
       (globals_after
          (cell30 recorded_autocomplete ["My"%string]
             (set_high_prob_completions [] fresh)))
     = Some []
  /\ ~ reports_greatest_alternative
  /\ ~ keeps_greatest_alternative.
Proof.
  assert (Hprinted :
            printed
              (cell12 (fun _ => technology_response)
                 ["Technology headline"%string] fresh)
            = [Text "Technology headline"; Text newline]
              ++ alternative_lines "Token:" technology_alternatives
              ++ [Text newline; Text newline]).
  { rewrite (cell12_one_headline (fun _ => technology_response)
               "Technology headline" fresh _ [] eq_refl).
    reflexivity. }
  assert (Hkept :
            high_prob_completions
              (globals_after
                 (cell30 recorded_autocomplete ["My"%string]
                    (set_high_prob_completions [] fresh)))
            = Some []).
  { assert (Hne : forall s, In s ["My"%string] ->
                            content (recorded_autocomplete s) <> []).
    { intros s [<-|[]]. discriminate. }
    destruct (cell30_bound recorded_autocomplete ["My"%string]
                (set_high_prob_completions [] fresh) [] eq_refl Hne)
      as [_ Hs].
    rewrite Hs. cbn [fold_left].
    change (first_alternatives recorded_autocomplete "My")
      with [alt "favorite" (-0.18245785); alt "dog" (-2.397172);
            alt "ap" (-3.8732424)].
    unfold alt. rewrite !suggestions_below by lra. reflexivity. }
  split; [exact Hprinted|]. split; [exact Hkept|]. split.
  - intros H.
    destruct (H (fun _ => technology_response) "Technology headline"%string
                fresh _ [] (alt "Technology" (-3.1737043e-06))
                [alt "Techn" (-13.437503)] eq_refl eq_refl)
      as (pre & b & post & _ & _ & _ & Hp).
    rewrite Hprinted in Hp.
    apply (f_equal (@List.length piece)) in Hp.
    cbn in Hp. discriminate Hp.
  - intros H.
    destruct (H recorded_autocomplete "My"%string
                (set_high_prob_completions [] fresh) [] _ []
                (alt "favorite" (-0.18245785))
                [alt "dog" (-2.397172); alt "ap" (-3.8732424)]
                eq_refl eq_refl eq_refl)
      as (pre & b & post & d' & _ & _ & _ & Hd' & Hget).
    rewrite Hkept in Hd'. injection Hd' as <-.
    cbn [item_get] in Hget. discriminate Hget.
Qed.

End AlternativeLoops.
